(** * A shallow embedding of the schema-to-code compiler core of yapigen

    The generator is written in TypeScript.  Its values are modelled as
    follows:
    - a JSON value (a schema, a parameter, the whole OpenAPI document) is a
      [json]; an object is the list of its own properties in
      [Object.entries] order;
    - a [CodeFragment] is modelled by its text, a generated fragment list
      ([CodeFragment[]]) by a [list string]; the provenance location attached
      to a fragment is not modelled, since no property below depends on it;
    - a thrown exception is an [Err] of the [result] monad; a warning printed
      with [console.warn] has no effect on the returned value and is dropped;
    - recursion that follows a [$ref] through the document is bounded by a
      fuel argument, running out of fuel standing for non-termination. *)

From Stdlib Require Import String Ascii List ZArith Bool Lia.
From Stdlib Require Import Numbers.DecimalString.
Import ListNotations.
Open Scope string_scope.
Set Warnings "-register-all".

(** ** Errors and the error monad *)

Inductive error :=
  | NotImplemented (feature : string)  (** [new NotImplemented(feature)] *)
  | GenError (msg : string)            (** [new Error(msg)] *)
  | TypeError (msg : string)           (** a TypeError raised by the JS runtime *)
  | OutOfFuel.

Inductive result (A : Type) :=
  | Ok (a : A)
  | Err (e : error).
Arguments Ok {A} a.
Arguments Err {A} e.

Definition bind {A B} (m : result A) (k : A -> result B) : result B :=
  match m with
  | Ok a => k a
  | Err e => Err e
  end.

Notation "x <- m ;; k" := (bind m (fun x => k))
  (at level 61, m at next level, right associativity).

Fixpoint mapM {A B} (f : A -> result B) (l : list A) : result (list B) :=
  match l with
  | [] => Ok []
  | a :: l' => b <- f a ;; bs <- mapM f l' ;; Ok (b :: bs)
  end.

(** ** JSON values *)

Inductive json :=
  | JNull
  | JBool (b : bool)
  | JNum (z : Z)
  | JStr (s : string)
  | JArr (l : list json)
  | JObj (l : list (string * json)).

Fixpoint assoc {A} (k : string) (l : list (string * A)) : option A :=
  match l with
  | [] => None
  | (k', v) :: l' => if String.eqb k k' then Some v else assoc k l'
  end.

(** Property access [o[k]] on an object ([undefined] is [None]). *)
Definition get (k : string) (v : json) : option json :=
  match v with
  | JObj l => assoc k l
  | _ => None
  end.

(** [k in v]: the [in] operator throws on a primitive right-hand side;
    arrays have no string-named properties of their own. *)
Definition js_in (k : string) (v : json) : result bool :=
  match v with
  | JObj l => Ok (match assoc k l with Some _ => true | None => false end)
  | JArr _ => Ok false
  | _ => Err (TypeError "Cannot use 'in' operator")
  end.

(** [Object.keys(v).length]. *)
Definition js_keys_length (v : json) : result nat :=
  match v with
  | JObj l => Ok (length l)
  | JArr l => Ok (length l)
  | JStr s => Ok (String.length s)
  | JNull => Err (TypeError "Cannot convert undefined or null to object")
  | _ => Ok 0
  end.

Definition is_str (s : string) (v : json) : bool :=
  match v with JStr s' => String.eqb s s' | _ => false end.

Fixpoint json_eqb (a b : json) : bool :=
  match a, b with
  | JNull, JNull => true
  | JBool x, JBool y => Bool.eqb x y
  | JNum x, JNum y => Z.eqb x y
  | JStr x, JStr y => String.eqb x y
  | JArr xs, JArr ys =>
      (fix go xs ys := match xs, ys with
        | [], [] => true
        | x :: xs', y :: ys' => json_eqb x y && go xs' ys'
        | _, _ => false end) xs ys
  | JObj xs, JObj ys =>
      (fix go xs ys := match xs, ys with
        | [], [] => true
        | (k, x) :: xs', (k', y) :: ys' =>
            String.eqb k k' && json_eqb x y && go xs' ys'
        | _, _ => false end) xs ys
  | _, _ => false
  end.

(** ** String helpers *)

Definition char_str (c : ascii) : string := String c EmptyString.

(** [s.split(c)] for a one-character separator. *)
Fixpoint split_on (c : ascii) (s : string) : list string :=
  match s with
  | EmptyString => [EmptyString]
  | String d s' =>
      if Ascii.eqb c d then EmptyString :: split_on c s'
      else match split_on c s' with
           | [] => [char_str d]
           | w :: ws => String d w :: ws
           end
  end.

(** [lst.join(sep)]. *)
Fixpoint join (sep : string) (l : list string) : string :=
  match l with
  | [] => EmptyString
  | [w] => w
  | w :: l' => w ++ sep ++ join sep l'
  end.

(** [lst.at(-1)]. *)
Definition last_opt {A} (l : list A) : option A :=
  match rev l with [] => None | a :: _ => Some a end.

Definition Z_to_string (z : Z) : string :=
  NilEmpty.string_of_int (Z.to_int z).

(** ** src/escape.ts and formatters/util.ts: [escape] and [ts_string] *)

(** Prepends a backslash to every [char] and every backslash. *)
Fixpoint escape (char : ascii) (s : string) : string :=
  match s with
  | EmptyString => EmptyString
  | String c s' =>
      if Ascii.eqb c char || Ascii.eqb c "\"%char
      then String "\"%char (String c (escape char s'))
      else String c (escape char s')
  end.

Definition ts_string_d (s : string) (delim : ascii) : string :=
  char_str delim ++ escape delim s ++ char_str delim.

(** The double quote, character 34. *)
Definition dq_char : ascii := ascii_of_nat 34.
Definition dq : string := char_str dq_char.

(** [ts_string(s)], the delimiter defaulting to a double quote. *)
Definition ts_string (s : string) : string := ts_string_d s dq_char.

(** ** src/ts-identifier.ts *)

(** [s.split(/-/).join('_')] *)
Definition to_ts_identifier (s : string) : string :=
  join "_" (split_on "-"%char s).

(** ** The JS [Number(s)] conversion, as far as the pointer walk uses it

    [resolveReference] only asks whether [Number(component)] is [NaN] and, if
    not, indexes an array with it.  A number that is a non-negative integer
    is [Index n]; every other number ([-1], [1.5], [Infinity]) is
    [OtherNumber], which indexes no array element.  The grammar is the
    ECMAScript StringNumericLiteral; white space is the ASCII part of
    StrWhiteSpaceChar. *)

Inductive js_number := NaN | Index (n : N) | OtherNumber.

Definition is_ws (c : ascii) : bool :=
  let n := nat_of_ascii c in (Nat.leb 9 n && Nat.leb n 13) || Nat.eqb n 32.

Fixpoint drop_ws (l : list ascii) : list ascii :=
  match l with
  | c :: l' => if is_ws c then drop_ws l' else l
  | [] => []
  end.

Definition trim (l : list ascii) : list ascii := rev (drop_ws (rev (drop_ws l))).

Definition digit_val (base : N) (c : ascii) : option N :=
  let n := N.of_nat (nat_of_ascii c) in
  let v := if (48 <=? n)%N && (n <=? 57)%N then Some (n - 48)%N
           else if (97 <=? n)%N && (n <=? 122)%N then Some (n - 87)%N
           else if (65 <=? n)%N && (n <=? 90)%N then Some (n - 55)%N
           else None in
  match v with Some d => if (d <? base)%N then Some d else None | None => None end.

(** Longest prefix of digits: accumulated value, digit count, rest. *)
Fixpoint take_digits (base acc : N) (cnt : nat) (l : list ascii)
    : N * nat * list ascii :=
  match l with
  | c :: l' =>
      match digit_val base c with
      | Some d => take_digits base (acc * base + d)%N (S cnt) l'
      | None => (acc, cnt, l)
      end
  | [] => (acc, cnt, [])
  end.

Definition radix_of (c : ascii) : option N :=
  if Ascii.eqb c "x"%char || Ascii.eqb c "X"%char then Some 16%N
  else if Ascii.eqb c "o"%char || Ascii.eqb c "O"%char then Some 8%N
  else if Ascii.eqb c "b"%char || Ascii.eqb c "B"%char then Some 2%N
  else None.

(** The value [m * 10^e] of a decimal literal with sign [neg]. *)
Definition decimal_value (neg : bool) (m : N) (e : Z) : js_number :=
  if (m =? 0)%N then Index 0
  else if neg then OtherNumber
  else if (400 <? e)%Z then OtherNumber
  else if (0 <=? e)%Z then Index (m * 10 ^ Z.to_N e)%N
  else let p := (10 ^ Z.to_N (- e))%N in
       if (N.modulo m p =? 0)%N then Index (m / p)%N else OtherNumber.

Definition unsigned_decimal (neg : bool) (l : list ascii) : js_number :=
  if String.eqb (string_of_list_ascii l) "Infinity" then OtherNumber
  else
  let '(m1, n1, r1) := take_digits 10 0 0 l in
  let '(m2, n2, r2) :=
    match r1 with
    | "."%char :: r => take_digits 10 m1 0 r
    | _ => (m1, 0, r1)
    end in
  if Nat.eqb (n1 + n2) 0 then NaN
  else match r2 with
  | [] => decimal_value neg m2 (- Z.of_nat n2)
  | c :: r =>
      if Ascii.eqb c "e"%char || Ascii.eqb c "E"%char then
        let '(eneg, r') :=
          match r with
          | "+"%char :: r' => (false, r')
          | "-"%char :: r' => (true, r')
          | _ => (false, r)
          end in
        let '(ev, ne, r3) := take_digits 10 0 0 r' in
        match ne, r3 with
        | S _, [] =>
            decimal_value neg m2
              ((if eneg then - Z.of_N ev else Z.of_N ev) - Z.of_nat n2)%Z
        | _, _ => NaN
        end
      else NaN
  end.

(** [Number(s)] *)
Definition js_Number (s : string) : js_number :=
  match trim (list_ascii_of_string s) with
  | [] => Index 0
  | "0"%char :: c :: r =>
      match radix_of c with
      | Some b =>
          match take_digits b 0 0 r with
          | (v, S _, []) => Index v
          | _ => NaN
          end
      | None => unsigned_decimal false ("0"%char :: c :: r)
      end
  | "+"%char :: r => unsigned_decimal false r
  | "-"%char :: r => unsigned_decimal true r
  | l => unsigned_decimal false l
  end.

(** ** json-pointer.ts *)

(** [json_path_unescape]: a [flatMap] over the characters threading the
    variable [last], which is only updated on the branch that does not
    follow a tilde. *)
Fixpoint json_path_unescape_go (last : option ascii) (s : string)
    : result string :=
  match s with
  | EmptyString => Ok EmptyString
  | String c s' =>
      if match last with Some l => Ascii.eqb l "~"%char | None => false end then
        if Ascii.eqb c "0"%char then
          r <- json_path_unescape_go last s' ;; Ok ("~" ++ r)
        else if Ascii.eqb c "1"%char then
          r <- json_path_unescape_go last s' ;; Ok ("/" ++ r)
        else Err (GenError ("Invalid escape found: ~" ++ char_str c ++ " "))
      else
        r <- json_path_unescape_go (Some c) s' ;; Ok (String c r)
  end.

(** [let last = '']: the initial value is no character. *)
Definition json_path_unescape (s : string) : result string :=
  json_path_unescape_go None s.

(** [isObject] (imported from the external [@todo-3.0/lib/util]) is taken to
    hold of plain objects. *)
Definition isObject (v : json) : bool :=
  match v with JObj _ => true | _ => false end.

Definition index_json (object : json) (component : string) : result json :=
  match js_Number component with
  | NaN =>
      if negb (isObject object)
      then Err (GenError "Attempted to get attribute of non-object")
      else match get component object with
           | Some o => Ok o
           | None => Err (GenError "Failed finding object")
           end
  | idx =>
      match object with
      | JArr l =>
          match idx with
          | Index n =>
              match nth_error l (N.to_nat n) with
              | Some o => Ok o
              | None => Err (GenError "Failed finding object")
              end
          | _ => Err (GenError "Failed finding object")
          end
      | _ => Err (GenError "Attempted to index a non-array")
      end
  end.

Fixpoint walk (object : json) (components : list string) : result json :=
  match components with
  | [] => Ok object
  | component_ :: rest =>
      component <- json_path_unescape component_ ;;
      object' <- index_json object component ;;
      walk object' rest
  end.

Definition resolveReference (doc : json) (pointer : string) : result json :=
  match split_on "/"%char pointer with
  | [] => Err (GenError "Empty path")
  | c0 :: rest =>
      if negb (String.eqb c0 "#")
      then Err (GenError "Can't resolve references in other documents.")
      else walk doc rest
  end.

Definition resolve (object : json) (document : json) : result json :=
  has_ref <- js_in "$ref" object ;;
  if has_ref then
    match get "$ref" object with
    | Some (JStr p) =>
        r <- resolveReference document p ;;
        if isObject r then Ok r
        else Err (GenError "didn't resolve to an object")
    | _ => Err (TypeError "pointer.split is not a function")
    end
  else Ok object.

(** ** formatters/operation.ts: [content_type_matches] *)

Definition ContentType := (string * string)%type.

Definition content_type_matches (clause target : ContentType) : bool :=
  if String.eqb (fst target) "*" then true
  else if String.eqb (fst clause) (fst target)
          && String.eqb (snd clause) (snd target) then true
  else if String.eqb (fst clause) (fst target)
          && String.eqb (snd clause) "*" then true
  else false.

(** ** formatters/authentication.ts: [is_authenticated] *)

(** A security requirement object maps scheme names to scope lists. *)
Definition SecurityRequirement := list (string * list string).

Definition is_authenticated (security_options : list SecurityRequirement) : bool :=
  negb (Nat.eqb (length security_options) 0
        || existsb (fun o => Nat.eqb (length o) 0) security_options).

(** ** [JSON.stringify] and the string conversion of property keys *)

Definition hex_digit (n : nat) : ascii :=
  if Nat.ltb n 10 then ascii_of_nat (48 + n) else ascii_of_nat (87 + n).

(** The body of a JSON string literal: quote, backslash and the control
    characters are escaped. *)
Fixpoint json_escape (s : string) : string :=
  match s with
  | EmptyString => EmptyString
  | String c s' =>
      let n := nat_of_ascii c in
      let e :=
        if Ascii.eqb c dq_char then "\" ++ dq
        else if Ascii.eqb c "\"%char then "\\"
        else if Nat.eqb n 10 then "\n"
        else if Nat.eqb n 13 then "\r"
        else if Nat.eqb n 9 then "\t"
        else if Nat.eqb n 8 then "\b"
        else if Nat.eqb n 12 then "\f"
        else if Nat.ltb n 32
        then "\u00" ++ char_str (hex_digit (n / 16)) ++ char_str (hex_digit (n mod 16))
        else char_str c in
      e ++ json_escape s'
  end.

Fixpoint json_stringify (v : json) : string :=
  match v with
  | JNull => "null"
  | JBool true => "true"
  | JBool false => "false"
  | JNum z => Z_to_string z
  | JStr s => dq ++ json_escape s ++ dq
  | JArr l => "[" ++ join "," (map json_stringify l) ++ "]"
  | JObj l =>
      "{" ++ join ","
        (map (fun '(k, x) => dq ++ json_escape k ++ dq ++ ":" ++ json_stringify x) l)
      ++ "}"
  end.

(** [String(v)], used when a value is a property key or is interpolated
    into a template string. *)
Fixpoint js_to_string (v : json) : string :=
  match v with
  | JNull => "null"
  | JBool true => "true"
  | JBool false => "false"
  | JNum z => Z_to_string z
  | JStr s => s
  | JArr l =>
      join "," (map (fun x => match x with JNull => "" | _ => js_to_string x end) l)
  | JObj _ => "[object Object]"
  end.

(** [Object.entries(v)] *)
Definition js_entries (v : json) : result (list (string * json)) :=
  match v with
  | JObj l => Ok l
  | JArr l => Ok (combine (map (fun n => Z_to_string (Z.of_nat n)) (seq 0 (length l))) l)
  | JStr s =>
      Ok (combine (map (fun n => Z_to_string (Z.of_nat n)) (seq 0 (String.length s)))
                  (map (fun c => JStr (char_str c)) (list_ascii_of_string s)))
  | JNull => Err (TypeError "Cannot convert undefined or null to object")
  | _ => Ok []
  end.

(** [v.includes(name)] on an array or a string. *)
Definition js_includes (v : json) (name : string) : result bool :=
  match v with
  | JArr l => Ok (existsb (is_str name) l)
  | JStr s => Ok (match String.index 0 name s with Some _ => true | None => false end)
  | _ => Err (TypeError "includes is not a function")
  end.

(** A field that must hold an array, as in [schema.allOf!.map(...)]. *)
Definition array_field (k : string) (v : json) : result (list json) :=
  match get k v with
  | Some (JArr l) => Ok l
  | _ => Err (TypeError (k ++ ".map is not a function"))
  end.

(** JS truthiness of a field ([undefined] is falsy). *)
Definition truthy (v : option json) : bool :=
  match v with
  | None | Some JNull | Some (JBool false) | Some (JStr EmptyString) => false
  | Some (JNum z) => negb (Z.eqb z 0)
  | _ => true
  end.

(** ** json-schema-formats.ts *)

Record FormatSpec := {
  parse : string -> string;
  serialize : string -> string;
  fs_type : string;
  fs_instanceof : option (string -> string);
}.

(** A registry: format name to specification ([{[format]: FormatSpec}]). *)
Definition Formats := list (string * FormatSpec).

Definition string_spec : FormatSpec :=
  {| parse := fun x => x; serialize := fun x => x; fs_type := "string";
     fs_instanceof := None |}.

Definition DEFAULT_STRING_FORMATS : Formats := [
  ("uri", {| parse := fun x => "(new URL(" ++ x ++ "))";
             serialize := fun x => x ++ ".href"; fs_type := "URL";
             fs_instanceof := None |});
  ("date-time", {| parse := fun x => "(new Date(" ++ x ++ "))";
                   serialize := fun x => x ++ ".toISOString()"; fs_type := "Date";
                   fs_instanceof := None |});
  ("http-date", {| parse := fun x => "(new Date(" ++ x ++ "))";
                   serialize := fun x => x ++ ".toUTCString()"; fs_type := "Date";
                   fs_instanceof := None |});
  ("uuid", string_spec);
  ("ipv4", string_spec);
  ("ipv6", string_spec);
  ("password", string_spec)].

(** What [string_formats[format]] finds, the key converted with
    [String(format)].  The registry is an object literal
    ([{...DEFAULT_STRING_FORMATS, ...}]), so besides its own entries a
    lookup finds the members of [Object.prototype] under their names; each
    of them (a method, or [Object.prototype] itself for [__proto__]) is
    truthy and has no [type], [instanceof], [parse] or [serialize]. *)
Inductive format_entry :=
  | FOwn (spec : FormatSpec)
  | FProto.

Definition object_prototype_members : list string :=
  ["constructor"; "__defineGetter__"; "__defineSetter__"; "hasOwnProperty";
   "__lookupGetter__"; "__lookupSetter__"; "isPrototypeOf";
   "propertyIsEnumerable"; "toString"; "valueOf"; "__proto__"; "toLocaleString"].

Definition lookup_format (fmts : Formats) (format : json) : option format_entry :=
  let k := js_to_string format in
  match assoc k fmts with
  | Some spec => Some (FOwn spec)
  | None => if existsb (String.eqb k) object_prototype_members then Some FProto else None
  end.

Arguments lookup_format : simpl never.

(** [spec.type === 'string'] *)
Definition entry_is_string (e : format_entry) : bool :=
  match e with FOwn spec => String.eqb (fs_type spec) "string" | FProto => false end.

(** ** code-fragment.ts and formatters/util.ts: fragment combinators *)

Fixpoint intersperse {A} (el : A) (lst : list A) : list A :=
  match lst with
  | [] => []
  | [a] => [a]
  | a :: lst' => a :: el :: intersperse el lst'
  end.

Definition join_fragments (combiner : string) (fragments : list (list string))
    : list string :=
  concat (intersperse [combiner] fragments).

Record ObjectField := {
  of_name : string;
  of_type : list string;
  of_optional : option bool;  (** [None]: the key is absent *)
  of_raw : bool;
}.

Definition object_to_type (o : list ObjectField) : list string :=
  match o with
  | [] => ["Record<never, never>"]
  | _ =>
      ["{"] ++
      flat_map (fun f =>
        ((if of_raw f then of_name f else ts_string (of_name f)) ++
         (match of_optional f with Some true => "?" | _ => "" end) ++ ":")
        :: of_type f ++ [","]) o
      ++ ["}"]
  end.

(** ** json-schema.ts: [ts_name_for_reference] and [schema_to_typescript] *)

Definition ts_name_for_reference (ref : json) (document : json) : result string :=
  schema <- resolve ref document ;;
  has_title <- js_in "title" schema ;;
  let ret :=
    if has_title then get "title" schema
    else match get "$ref" ref with
         | Some (JStr p) => option_map JStr (last_opt (split_on "/"%char p))
         | _ => None
         end in
  if negb (truthy ret)
  then Err (GenError "Failed finding a name for reference")
  else match ret with
       | Some (JStr s) => Ok (to_ts_identifier s)
       | _ => Err (TypeError "s.split is not a function")
       end.

(** [schema.type === t] *)
Definition type_is (t : string) (schema : json) : bool :=
  match get "type" schema with Some v => is_str t v | None => false end.

Section TypeCompiler.
Variable ns : string.
Variable string_formats : Formats.
Variable document : json.

(** The closure [inner] of [schema_to_typescript]; [fuel] bounds the
    recursion depth. *)
Fixpoint schema_to_typescript_inner (fuel : nat) (schema : json)
    : result (list string) :=
  match fuel with
  | O => Err OutOfFuel
  | S fuel' =>
  let inner := schema_to_typescript_inner fuel' in
  nkeys <- js_keys_length schema ;;
  if Nat.eqb nkeys 0 then Ok ["any"] else
  has_ref <- js_in "$ref" schema ;;
  if has_ref then
    name <- ts_name_for_reference schema document ;;
    Ok [ns ++ name]
  else
  has_allOf <- js_in "allOf" schema ;;
  if has_allOf then
    parts <- array_field "allOf" schema ;;
    fr <- mapM inner parts ;;
    Ok (["("] ++ join_fragments " & " fr ++ [")"])%list
  else
  has_oneOf <- js_in "oneOf" schema ;;
  if has_oneOf then
    parts <- array_field "oneOf" schema ;;
    fr <- mapM inner parts ;;
    Ok (["("] ++ join_fragments " | " fr ++ [")"])%list
  else
  has_anyOf <- js_in "anyOf" schema ;;
  if has_anyOf then
    parts <- array_field "anyOf" schema ;;
    fr <- mapM inner parts ;;
    Ok (["("] ++ join_fragments " | " fr ++ [")"])%list
  else
  has_type <- js_in "type" schema ;;
  if has_type then
    if type_is "null" schema then Ok ["null"]
    else if type_is "boolean" schema then Ok ["boolean"]
    else if type_is "integer" schema || type_is "number" schema then Ok ["number"]
    else if type_is "string" schema then
      has_enum <- js_in "enum" schema ;;
      if has_enum then
        values <- array_field "enum" schema ;;
        Ok [join " | " (map json_stringify values)]
      else
      has_const <- js_in "const" schema ;;
      if has_const then
        Ok [match get "const" schema with
            | Some c => json_stringify c | None => "" end]
      else
        match get "format" schema with
        | None => Ok ["string"]
        | Some format =>
            match lookup_format string_formats format with
            | None => Err (NotImplemented
                             ("Strings with " ++ js_to_string format ++ " format"))
            | Some (FOwn spec) => Ok [fs_type spec]
            (* [new CodeFragment(spec.type)] with [spec.type] undefined,
               rendered as "undefined" *)
            | Some FProto => Ok ["undefined"]
            end
        end
    else if type_is "array" schema then
      has_items <- js_in "items" schema ;;
      if has_items then
        match get "items" schema with
        | Some items => it <- inner items ;; Ok (it ++ ["[]"])%list
        | None => Ok ["any[]"]
        end
      else Ok ["any[]"]
    else if type_is "object" schema then
      let required := match get "required" schema with
                      | None | Some JNull => JArr [] | Some r => r end in
      let properties := match get "properties" schema with
                        | None | Some JNull => JObj [] | Some p => p end in
      entries <- js_entries properties ;;
      generated_properties <- mapM (fun '(name, declaration) =>
          ty <- inner declaration ;;
          req <- js_includes required name ;;
          Ok {| of_name := name; of_type := ty; of_optional := Some (negb req);
                of_raw := false |}) entries ;;
      has_additional <- js_in "additionalProperties" schema ;;
      additional_fields <-
        (if has_additional then
           match get "additionalProperties" schema with
           | Some (JBool true) =>
               Ok [{| of_name := "[additional: string]"; of_type := ["any"];
                      of_optional := Some false; of_raw := true |}]
           | Some (JBool false) => Ok []
           | Some a =>
               additional <- resolve a document ;;
               (* the recursive call goes through [schema_to_typescript] *)
               ty <- match additional with
                     | JBool true => Ok ["any"]
                     | JBool false => Ok ["never"]
                     | _ => inner additional
                     end ;;
               Ok [{| of_name := "[additional: string]"; of_type := ty;
                      of_optional := Some false; of_raw := true |}]
           | None => Ok []
           end
         else Ok []) ;;
      Ok (object_to_type (generated_properties ++ additional_fields)%list)
    else Err (GenError "Unhandled type")
  else Err (GenError "Unhandled schema form")
  end.

Definition schema_to_typescript (fuel : nat) (schema : json) : result (list string) :=
  match schema with
  | JBool true => Ok ["any"]
  | JBool false => Ok ["never"]
  | _ => schema_to_typescript_inner fuel schema
  end.
End TypeCompiler.

(** ** json-schema.ts: [merge_schemas] *)

Definition nl : string := char_str (ascii_of_nat 10).

(** [properties[name] = spec]: overwrite in place or append. *)
Fixpoint assoc_set (k : string) (v : json) (l : list (string * json))
    : list (string * json) :=
  match l with
  | [] => [(k, v)]
  | (k', v') :: l' => if String.eqb k k' then (k, v) :: l' else (k', v') :: assoc_set k v l'
  end.

(** [for (const x of v)] over an array (or the characters of a string). *)
Definition js_iter (v : json) : result (list json) :=
  match v with
  | JArr l => Ok l
  | JStr s => Ok (map (fun c => JStr (char_str c)) (list_ascii_of_string s))
  | _ => Err (TypeError "is not iterable")
  end.

(** [required.add(req)] on a [Set], compared structurally. *)
Definition set_add (v : json) (l : list json) : list json :=
  if existsb (json_eqb v) l then l else l ++ [v].

(** How [properties['__proto__']] resolves along the prototype chain of the
    [properties] accumulator when it has no own [__proto__]: at the
    accessor of [Object.prototype], at a data property of a prototype, or
    nowhere (a [null] prototype). *)
Inductive proto_lookup := ProtoSetter | ProtoData | ProtoNone.

(** [properties[name] = spec] on the object created by the literal [{}],
    as its own properties and the state of its prototype chain.  Any name
    other than [__proto__] becomes an own property (overwritten in place or
    appended).  [__proto__] does too when the object or its chain holds a
    data property of that name, or the chain is empty; otherwise the
    [Object.prototype.__proto__] setter runs: it adds no own property, and
    replaces the prototype with [spec] when [spec] is an object, an array
    or [null] (ignoring any other value). *)
Definition props_assign (name : string) (spec : json)
    (acc : list (string * json) * proto_lookup) : list (string * json) * proto_lookup :=
  let '(own, chain) := acc in
  if String.eqb name "__proto__" then
    match assoc "__proto__" own, chain with
    | None, ProtoSetter =>
        match spec with
        | JObj o => (own, match assoc "__proto__" o with Some _ => ProtoData | None => ProtoSetter end)
        | JArr _ => (own, ProtoSetter)
        | JNull => (own, ProtoNone)
        | _ => (own, chain)
        end
    | _, _ => (assoc_set name spec own, chain)
    end
  else (assoc_set name spec own, chain).

Fixpoint merge_schemas_go (schemas : list json)
    (properties : list (string * json) * proto_lookup) (required : list json)
    : result ((list (string * json) * proto_lookup) * list json) :=
  match schemas with
  | [] => Ok (properties, required)
  | subschema :: rest =>
      has_props <- js_in "properties" subschema ;;
      properties' <-
        (if has_props then
           entries <- js_entries (match get "properties" subschema with
                                  | Some p => p | None => JNull end) ;;
           Ok (fold_left (fun acc '(name, spec) => props_assign name spec acc)
                 entries properties)
         else Ok properties) ;;
      has_req <- js_in "required" subschema ;;
      required' <-
        (if has_req then
           reqs <- js_iter (match get "required" subschema with
                            | Some r => r | None => JNull end) ;;
           Ok (fold_left (fun acc r => set_add r acc) reqs required)
         else Ok required) ;;
      merge_schemas_go rest properties' required'
  end.

Definition merge_schemas (schemas : list json) : result json :=
  pr <- merge_schemas_go schemas ([], ProtoSetter) [] ;;
  let '((properties, _), required) := pr in
  Ok (JObj ([("type", JStr "object")]
            ++ (match properties with [] => [] | _ => [("properties", JObj properties)] end)
            ++ (match required with [] => [] | _ => [("required", JArr required)] end))).

(** ** json-schema.ts: [schema_to_serializer_or_parser] *)

Inductive mode := parser | serializer.

(** [false | CodeFragment[]]: [None] is [false], "nothing to transform". *)
Definition transform := option (list string).

Section ParserSerializer.
Variable document : json.
Variable string_formats : Formats.
Variable mode_ : mode.

Section Loops.
(** The recursive calls of the loops below go through [inner]. *)
Variable inner : json -> string -> result transform.

Definition ret_part (x : string) (part : transform) : list string :=
  match part with
  | Some p => "return " :: p
  | None => ["return " ++ x]
  end.

Definition resolve_if_ref (e : json) : result json :=
  hr <- js_in "$ref" e ;; if hr then resolve e document else Ok e.

(** Discriminator with a [mapping]: one [case] per mapped value. *)
Fixpoint mapping_cases (x : string) (entries : list (string * json))
    : result (list string) :=
  match entries with
  | [] => Ok []
  | (value, ref) :: rest =>
      part <- inner (JObj [("$ref", ref)]) x ;;
      more <- mapping_cases x rest ;;
      Ok (("case " ++ ts_string value ++ ":") :: app (ret_part x part) (app [";" ++ nl] more))
  end.

(** Discriminator without a [mapping]: one [case] per referenced branch. *)
Fixpoint ref_cases (x : string) (options : list json) : result (list string) :=
  match options with
  | [] => Ok []
  | ref :: rest =>
      hr <- js_in "$ref" ref ;;
      if negb hr then Err (GenError "All entries MUST be refs when using a discriminator")
      else
      key <- (match get "$ref" ref with
              | Some (JStr p) =>
                  match last_opt (split_on "/"%char p) with
                  | Some k => Ok k | None => Ok EmptyString end
              | _ => Err (TypeError "split is not a function")
              end) ;;
      part <- inner ref x ;;
      more <- ref_cases x rest ;;
      Ok (("case " ++ ts_string key ++ ":") :: app (ret_part x part) (app [";" ++ nl] more))
  end.

(** The entries of a [type: 'object'] schema's [properties] needing a
    transformation; [required] is [schema.required ?? []]. *)
Fixpoint object_fields (x : string) (required : json)
    (entries : list (string * json)) : result (list string) :=
  match entries with
  | [] => Ok []
  | (key, value) :: rest =>
      let safe_key := ts_string key in
      c <- inner value ("(" ++ x ++ "[" ++ safe_key ++ "]!)") ;;
      here <- (match c with
               | None => Ok []
               | Some c =>
                   req <- js_includes required key ;;
                   if req then Ok ((safe_key ++ ": ") :: app c ["," ++ nl])
                   else Ok (("...(" ++ safe_key ++ " in " ++ x ++ " ? { " ++ safe_key ++ ": ")
                            :: app c [" } : {})," ++ nl])
               end) ;;
      more <- object_fields x required rest ;;
      Ok (app here more)
  end.
(** Serializer: one [instanceof] test per registered non-string format. *)
Fixpoint serializer_formats (x : string) (formats : list json) (has_bare_string : bool)
    : result (list string * bool) :=
  match formats with
  | [] => Ok ([], has_bare_string)
  | format_name :: rest =>
      match lookup_format string_formats format_name with
      | None => serializer_formats x rest true
      | Some e =>
          if entry_is_string e then serializer_formats x rest true
          else
            match e with
            | FOwn spec =>
                r <- serializer_formats x rest has_bare_string ;;
                let '(more, hb) := r in
                Ok (app ("if (" :: match fs_instanceof spec with
                                   | Some i => [i x]
                                   | None => [x ++ " instanceof "; fs_type spec]
                                   end)
                        (app [") {return "; serialize spec x; "}"] more), hb)
            (* [spec.serialize(x)] on a member of [Object.prototype] *)
            | FProto => Err (TypeError "spec.serialize is not a function")
            end
      end
  end.

(** Parser: one [try] per registered non-string format. *)
Fixpoint parser_formats (x : string) (string_formats_ : list json) (has_bare_string : bool)
    : result (list string * bool) :=
  match string_formats_ with
  | [] => Ok ([], has_bare_string)
  | string_format :: rest =>
      let format := match get "format" string_format with Some f => f | None => JNull end in
      match lookup_format string_formats format with
      | None => parser_formats x rest has_bare_string
      | Some e =>
          if entry_is_string e then parser_formats x rest true
          else
            part <- inner string_format x ;;
            match part with
            | None => parser_formats x rest true
            | Some p =>
                r <- parser_formats x rest has_bare_string ;;
                let '(more, hb) := r in
                Ok (app ("try {return " :: p) (app ["} catch (_) {}"] more), hb)
            end
      end
  end.
End Loops.

(** [groups.get(k) ?? []] of [entries.groupBy(p => p.type)]. *)
Definition group (k : string) (entries : list json) : list json :=
  filter (fun e => type_is k e) entries.

Definition untyped (entries : list json) : list json :=
  filter (fun e => match get "type" e with None => true | Some _ => false end) entries.

Definition throw_fragment : string :=
  "throw new Error(" ++ nl ++
  "      'Failed parsing field as any of the configured string formats.'" ++ nl ++
  "      )".

(** The closure [inner] of [schema_to_serializer_or_parser]. *)
Fixpoint sp_inner (fuel : nat) (schema : json) (x : string) : result transform :=
  match fuel with
  | O => Err OutOfFuel
  | S fuel' =>
  let inner := sp_inner fuel' in
  has_ref <- js_in "$ref" schema ;;
  if has_ref then
    r <- resolve schema document ;; inner r x
  else
  has_allOf <- js_in "allOf" schema ;;
  if has_allOf then
    parts0 <- array_field "allOf" schema ;;
    parts <- mapM resolve_if_ref parts0 ;;
    if negb (forallb (type_is "object") parts) then
      (* console.warn("WARNING: Found allOf part which isn't an object") *)
      Ok None
    else
      merged <- merge_schemas parts ;;
      inner merged x
  else
  has_oneOf <- js_in "oneOf" schema ;;
  has_anyOf <- js_in "anyOf" schema ;;
  if has_oneOf || has_anyOf then
    (* schema.oneOf ?? schema.anyOf ?? [] *)
    let options :=
      match match get "oneOf" schema with
            | None | Some JNull => get "anyOf" schema
            | o => o end with
      | None | Some JNull => JArr []
      | Some v => v
      end in
    has_disc <- js_in "discriminator" schema ;;
    body <-
      (if has_disc then
         let disc := match get "discriminator" schema with Some d => d | None => JNull end in
         pn <- (match get "propertyName" disc with
                | Some (JStr pn) => Ok pn
                | _ => Err (TypeError "split is not a function") end) ;;
         cases <- (match get "mapping" disc with
                   | Some mapping =>
                       entries <- js_entries mapping ;;
                       mapping_cases inner x (map (fun '(k, v) => (k, v)) entries)
                   | None => opts <- js_iter options ;; ref_cases inner x opts
                   end) ;;
         Ok (app [("switch (" ++ x ++ "[" ++ ts_string pn ++ "]) {")] (app cases ["}"]))
       else
         opts <- (match options with
                  | JArr l => Ok l
                  | _ => Err (TypeError "options.map is not a function") end) ;;
         entries <- mapM resolve_if_ref opts ;;
         match untyped entries with
         | entry :: _ =>
             if match get "allOf" entry with Some _ => true | None => false end
             then Err (NotImplemented ("allOf inside " ++ json_stringify schema))
             else if match get "oneOf" entry with Some _ => true | None => false end
             then Err (NotImplemented ("oneOf inside " ++ json_stringify schema))
             else if match get "anyOf" entry with Some _ => true | None => false end
             then Err (NotImplemented ("anyOf inside " ++ json_stringify schema))
             else Err (GenError "In a oneOf switch, all clauses must have explicit types")
         | [] =>
         object_part <-
           (match group "object" entries with
            | [] => Ok []
            | [o] =>
                part <- inner o x ;;
                Ok (app ["if (typeof " ++ x ++ " === 'object' && x !== null) {"]
                        (app (ret_part x part) ["}"]))
            | _ => Err (GenError "Can't have multiple objects in a oneOf switch without a discriminator.")
            end) ;;
         array_part <-
           (match group "array" entries with
            | [] => Ok []
            | [a] =>
                part <- (match get "items" a with
                         | Some items => r <- resolve items document ;; inner r "x"
                         | None => Ok None
                         end) ;;
                Ok (app ["if (Array.isArray(" ++ x ++ ")) {"]
                        (app (match part with
                              | Some p => app [("return " ++ x ++ ".map((x: any) => ")] (app p [")"])
                              | None => ["return " ++ x]
                              end) ["}"]))
            | arrays =>
                inside <-
                  (if negb (forallb (fun e => match get "items" e with Some _ => true | None => false end) arrays)
                   then Ok ["return " ++ x]
                   else
                     part <- inner (JObj [("oneOf", JArr (map (fun e => match get "items" e with
                                                                       | Some i => i | None => JNull end) arrays))]) "x" ;;
                     Ok (match part with
                         | Some p => app [("return " ++ x ++ ".map((x: any) => ")] (app p [")"])
                         | None => ["return " ++ x]
                         end)) ;;
                Ok (app ["if (Array.isArray(" ++ x ++ ")) {"] (app inside ["}"]))
            end) ;;
         let null_part := match group "null" entries with
                          | [] => [] | _ => ["if (" ++ x ++ " === null) { return " ++ x ++ " }"] end in
         let number_part := match app (group "number" entries) (group "integer" entries) with
                            | [] => []
                            | _ => ["if (typeof " ++ x ++ " === 'number') { return " ++ x ++ " }"] end in
         let boolean_part := match group "boolean" entries with
                             | [] => []
                             | _ => ["if (typeof " ++ x ++ " === 'boolean') { return " ++ x ++ " }"] end in
         string_part <-
           (match group "string" entries with
            | [] => Ok []
            | strings =>
                let with_format := filter (fun s => match get "format" s with Some _ => true | None => false end) strings in
                let bare := filter (fun s => match get "format" s with Some _ => false | None => true end) strings in
                let has_bare_string := match bare with [] => false | _ => true end in
                match mode_ with
                | serializer =>
                    let formats := map (fun s => match get "format" s with Some f => f | None => JNull end) with_format in
                    r <- serializer_formats x formats has_bare_string ;;
                    let '(frs, hb) := r in
                    Ok (app frs (if hb then ["if (typeof " ++ x ++ " === 'string') { return " ++ x ++ " }"] else []))
                | parser =>
                    r <- parser_formats inner x with_format has_bare_string ;;
                    let '(frs, hb) := r in
                    Ok (app ["if (typeof " ++ x ++ " === 'string') {"]
                            (app frs (app (if hb then ["return " ++ x] else []) ["}"])))
                end
            end) ;;
         Ok (app object_part (app array_part (app null_part (app number_part
               (app boolean_part string_part)))))
         end) ;;
    Ok (Some (app ["(() => {"] (app body [throw_fragment; "})()"])))
  else
  has_type <- js_in "type" schema ;;
  if has_type then
    if type_is "null" schema || type_is "integer" schema || type_is "number" schema
    then Ok None
    else if type_is "string" schema then
      has_format <- js_in "format" schema ;;
      if has_format then
        match lookup_format string_formats
                (match get "format" schema with Some f => f | None => JNull end) with
        | None =>
            (* console.warn(`Unknown string format: ...`) *)
            Ok None
        | Some (FOwn string_format) =>
            match mode_ with
            | parser => Ok (Some [parse string_format x])
            | serializer => Ok (Some [serialize string_format x])
            end
        (* [string_format.parse(x)] on a member of [Object.prototype] *)
        | Some FProto =>
            match mode_ with
            | parser => Err (TypeError "string_format.parse is not a function")
            | serializer => Err (TypeError "string_format.serialize is not a function")
            end
        end
      else Ok None
    else if type_is "array" schema then
      match get "items" schema with
      | Some items =>
          c <- inner items "x" ;;
          match c with
          | None => Ok None
          | Some c => Ok (Some (app [x ++ ".map((x: any) => "] (app c [")"])))
          end
      | None => Ok None
      end
    else if type_is "object" schema then
      match get "properties" schema with
      | Some props =>
          entries <- js_entries props ;;
          let required := match get "required" schema with
                          | None | Some JNull => JArr [] | Some r => r end in
          modified <- object_fields inner x required entries ;;
          match modified with
          | [] => Ok None
          | _ => Ok (Some (app ["({ ..." ++ x ++ ", "] (app modified [" })"])))
          end
      | None => Ok None
      end
    else Ok None
  else Err (GenError "Unhandled schema form")
  end.

Definition schema_to_serializer_or_parser (fuel : nat) (schema : json) (x : string)
    : result (list string) :=
  match schema with
  | JBool true => Ok [x]
  | JBool false => Ok ["(()=>{throw new Error})()"]
  | _ =>
      r <- sp_inner fuel schema x ;;
      match r with
      | None => Ok [x]
      | Some frs => Ok frs
      end
  end.
End ParserSerializer.

Definition schema_to_serializer (fuel : nat) (schema document : json)
    (string_formats : Formats) (x : string) : result (list string) :=
  schema_to_serializer_or_parser document string_formats serializer fuel schema x.

Definition schema_to_parser (fuel : nat) (schema document : json)
    (string_formats : Formats) (x : string) : result (list string) :=
  schema_to_serializer_or_parser document string_formats parser fuel schema x.

(** ** formatters/operation.ts: parameters *)

(** [{ ...o, k: v }] *)
Definition spread_set (k : string) (v : json) (o : json) : json :=
  match o with
  | JObj l => JObj (assoc_set k v l)
  | _ => JObj [(k, v)]
  end.

(** [format_parameter_type]: the type of a parameter or header, from its
    single [content] entry or from its [schema]; [ns] is the prefix of the
    generated type library ([types_symbol]). *)
Definition format_parameter_type (ns : string) (string_formats : Formats)
    (document : json) (fuel : nat) (parameter : json) : result (list string) :=
  has_content <- js_in "content" parameter ;;
  if has_content then
    content <- js_entries (match get "content" parameter with Some c => c | None => JNull end) ;;
    match content with
    | [(_, media)] =>
        schema_to_typescript ns string_formats document fuel
          (match get "schema" media with None | Some JNull => JObj [] | Some s => s end)
    | _ => Err (GenError "If 'content' is present on a parameter, it's length MUST be exactly 1")
    end
  else
  has_schema <- js_in "schema" parameter ;;
  if has_schema then
    schema_to_typescript ns string_formats document fuel
      (match get "schema" parameter with None | Some JNull => JObj [] | Some s => s end)
  else Err (GenError "Content or Schema required in headers and parameter.").

(** What [format_parameter] returns: [null], an [ObjectField], or [undefined]
    when [parameter.in] matches no case of its [switch]. *)
Inductive param_field :=
  | PNull
  | PField (f : ObjectField)
  | PUndefined.

Definition ignored_headers : list string := ["Accept"; "Content-Type"; "Authorization"].

(** [format_parameter]; a parameter's [name] is a string in a well-formed
    document. *)
Definition format_parameter (parameter : json) (ns : string)
    (string_formats : Formats) (document : json) (fuel : nat) : result param_field :=
  name <- (match get "name" parameter with
           | Some (JStr n) => Ok n
           | _ => Err (TypeError "parameter.name is not a string") end) ;;
  type <- format_parameter_type ns string_formats document fuel parameter ;;
  let optional := Some (negb (truthy (get "required" parameter))) in
  let in_ := get "in" parameter in
  match in_ with
  | Some (JStr "query") =>
      Ok (PField {| of_name := name; of_type := type; of_optional := optional; of_raw := false |})
  | Some (JStr "header") =>
      if existsb (String.eqb name) ignored_headers then Ok PNull
      else Ok (PField {| of_name := name; of_type := type; of_optional := optional; of_raw := false |})
  | Some (JStr "path") =>
      Ok (PField {| of_name := name; of_type := type; of_optional := None; of_raw := false |})
  | Some (JStr "cookie") =>
      Ok (PField {| of_name := name; of_type := type; of_optional := optional; of_raw := false |})
  | _ => Ok PUndefined
  end.

(** [.filter(x => x !== null)] followed by [object_to_type]; an [undefined]
    entry makes [object_to_type] fail when it destructures it. *)
Definition fields_of (l : list param_field) : result (list ObjectField) :=
  ls <- mapM (fun p => match p with
                       | PField f => Ok [f]
                       | PNull => Ok []
                       | PUndefined => Err (TypeError "Cannot destructure undefined")
                       end) l ;;
  Ok (concat ls).

(** [Object.entries(response.headers!).map(([name, spec]) =>
      format_parameter({ ...resolve(spec, document), name, in: 'header' }, ...))] *)
Definition response_header_fields (headers : json) (ns : string)
    (string_formats : Formats) (document : json) (fuel : nat) : result (list param_field) :=
  entries <- js_entries headers ;;
  mapM (fun '(name, spec) =>
          h <- resolve spec document ;;
          format_parameter (spread_set "in" (JStr "header") (spread_set "name" (JStr name) h))
            ns string_formats document fuel) entries.

(** ** formatters/operation.ts: [return_body_type] and [get_return_type] *)

Record BodyType := { content_type : string; body_type : list string }.

Definition return_body_type (content : json) (types_symbol : string)
    (string_formats : Formats) (document : json) (fuel : nat) : result (list BodyType) :=
  entries <- js_entries content ;;
  bodies <- mapM (fun '(mime, body) =>
      if String.eqb mime "text/plain" then
        Ok (Some {| content_type := ts_string "text/plain"; body_type := ["string"] |})
      else if String.eqb mime "application/json" then
        has_schema <- js_in "schema" body ;;
        if negb has_schema then Ok None
        else
          bt <- schema_to_typescript (types_symbol ++ ".") string_formats document fuel
                  (match get "schema" body with Some s => s | None => JNull end) ;;
          Ok (Some {| content_type := ts_string "application/json"; body_type := bt |})
      else
        (* console.warn(`Unhandled content type ...`) *)
        Ok (Some {| content_type := "string"; body_type := ["ArrayBuffer"] |})) entries ;;
  Ok (flat_map (fun b => match b with Some b => [b] | None => [] end) bodies).

(** A response variant: its keys in insertion order. *)
Definition variant := list (string * list string).

(** [get_return_type]: [None] is the [null] of an unreturnable response. *)
Definition get_return_type (status : string) (response_ : json)
    (security : list SecurityRequirement) (types_symbol : string)
    (string_formats : Formats) (document : json) (fuel : nat)
    : result (option (list string)) :=
  if String.eqb status "default"
  then Err (NotImplemented "Response status 'default'")
  else
  response <- resolve response_ document ;;
  if is_authenticated security && String.eqb status "401" then Ok None
  else
  has_content <- js_in "content" response ;;
  responses <-
    (if has_content then
       body <- return_body_type (match get "content" response with Some c => c | None => JNull end)
                 types_symbol string_formats document fuel ;;
       Ok (map (fun entry => [("status", [status]);
                              ("content_type", [content_type entry]);
                              ("body", body_type entry)]) body)
     else Ok [[("status", [status])]]) ;;
  has_headers <- js_in "headers" response ;;
  responses' <-
    (if has_headers then
       hs <- response_header_fields
               (match get "headers" response with Some h => h | None => JNull end)
               types_symbol string_formats document fuel ;;
       fs <- fields_of hs ;;
       let header_type := object_to_type fs in
       Ok (map (fun (r : variant) => app r [("headers", header_type)]) responses)
     else Ok responses) ;;
  Ok (Some (join_fragments " | "
    (map (fun (r : variant) =>
            object_to_type (map (fun '(name, type) =>
              {| of_name := name; of_type := type; of_optional := None; of_raw := false |}) r))
         responses'))).

(** ** formatters/operation.ts: the response union of
    [format_operation_as_server_endpoint_handler_type]

    The handler type is [(args: ...) => Promise<R>] with [R] the
    [" | "]-joined list [all_results] computed here from
    [operation.responses]; the function receives no security requirement. *)

Definition handler_content_field (types_symbol : string) (string_formats : Formats)
    (document : json) (fuel : nat) (entry : string * json) : result ObjectField :=
  let '(ct, media) := entry in
  if String.eqb ct "text/plain" || String.eqb ct "text/html" then
    Ok {| of_name := ct; of_type := ["() => string"]; of_optional := None; of_raw := false |}
  else if String.eqb ct "application/json" then
    has_schema <- js_in "schema" media ;;
    if has_schema then
      s <- resolve (match get "schema" media with Some s => s | None => JNull end) document ;;
      ty <- schema_to_typescript (types_symbol ++ ".") string_formats document fuel s ;;
      Ok {| of_name := ct; of_type := "() => " :: ty; of_optional := None; of_raw := false |}
    else
      Ok {| of_name := ct; of_type := ["() => Json"]; of_optional := None; of_raw := false |}
  else
    (* console.warn(`Unknown content type for response: ...`) *)
    Ok {| of_name := ct; of_type := ["() => ArrayBuffer"]; of_optional := None; of_raw := false |}.

Fixpoint handler_type_results (responses : list (string * json)) (types_symbol : string)
    (string_formats : Formats) (document : json) (fuel : nat)
    : result (list (list string)) :=
  match responses with
  | [] => Ok []
  | (status, response_) :: rest =>
      if String.eqb status "default" then
        (* console.warn('`default` response not implemented, ignoring') *)
        handler_type_results rest types_symbol string_formats document fuel
      else
      response <- resolve response_ document ;;
      has_headers <- js_in "headers" response ;;
      header_fields <-
        (if has_headers then
           hs <- response_header_fields
                   (match get "headers" response with Some h => h | None => JNull end)
                   types_symbol string_formats document fuel ;;
           fields_of hs
         else Ok []) ;;
      has_content <- js_in "content" response ;;
      content_fields <-
        (if has_content then
           entries <- js_entries (match get "content" response with Some c => c | None => JNull end) ;;
           mapM (handler_content_field types_symbol string_formats document fuel) entries
         else Ok []) ;;
      let results :=
        {| of_name := "status"; of_type := [status]; of_optional := None; of_raw := false |}
        :: app header_fields content_fields in
      more <- handler_type_results rest types_symbol string_formats document fuel ;;
      Ok (object_to_type results :: more)
  end.

(** ** formatters/operation.ts: [unpack_parameter_expression] *)

Section Unpack.
(** The branches for a parameter without [x-isFlag] (a [schema] with its
    validators, or a [content] map) are not needed below and are taken as
    given. *)
Variable unpack_schema_or_content : json -> result (list string).

Definition unpack_parameter_expression (header : json) : result (list string) :=
  has_flag <- js_in "x-isFlag" header ;;
  if has_flag then
    if negb (match get "in" header with Some v => is_str "query" v | None => false end)
    then Err (GenError "x-isFlag can ONLY appear on query parameters")
    else if truthy (get "required" header)
    then Err (GenError "x-isFlag can't be required")
    else if negb (truthy (get "allowEmptyValue" header))
    then Err (GenError "x-isFlag must allow empty values")
    else
      (* if ('schema' in header) console.warn('Schema ignored on x-isFlag parameter') *)
      Ok ["true"]
  else unpack_schema_or_content header.
End Unpack.

(** ** formatters/util.ts: [parse_uri_path] *)

(** [String.prototype.substring(start, end)] for [start <= end]. *)
Definition substring_js (s : string) (start end_ : nat) : string :=
  string_of_list_ascii (firstn (end_ - start) (skipn start (list_ascii_of_string s))).

(** The characters up to the first ['}'], and those after it. *)
Fixpoint take_until_close (l : list ascii) : option (list ascii * list ascii) :=
  match l with
  | [] => None
  | c :: l' =>
      if Ascii.eqb c "}"%char then Some ([], l')
      else match take_until_close l' with
           | Some (a, r) => Some (c :: a, r)
           | None => None
           end
  end.

(** A match of [/{([^}]+)}/] at the head of [l]: the greedy [[^}]+] takes
    every character up to the first ['}'], at least one of them. *)
Definition match_at (l : list ascii) : option (list ascii * list ascii) :=
  match l with
  | c :: rest =>
      if Ascii.eqb c "{"%char then
        match take_until_close rest with
        | Some ([], _) => None
        | Some (content, r) => Some (content, r)
        | None => None
        end
      else None
  | [] => None
  end.

(** A match of [matchAll]: [m.index], [m[1]] and [m[0].length]. *)
Record RegexMatch := { m_index : nat; m_group : string; m_length : nat }.

(** [path.matchAll(/{([^}]+)}/g)] from position [i] of the string; after a
    match the search resumes behind it. *)
Fixpoint match_all_from (fuel i : nat) (l : list ascii) : list RegexMatch :=
  match fuel with
  | O => []
  | S fuel' =>
      match l with
      | [] => []
      | _ :: l' =>
          match match_at l with
          | Some (content, r) =>
              {| m_index := i; m_group := string_of_list_ascii content;
                 m_length := length content + 2 |}
              :: match_all_from fuel' (i + length content + 2) r
          | None => match_all_from fuel' (S i) l'
          end
      end
  end.

Definition match_all (path : string) : list RegexMatch :=
  match_all_from (String.length path) 0 (list_ascii_of_string path).

(** The [for] loop: [substring_start], [parameters] and [template]. *)
Fixpoint parse_uri_path_loop (path : string) (replacement : string -> string)
    (ms : list RegexMatch) (substring_start : nat) (parameters : list string)
    (template : string) : nat * list string * string :=
  match ms with
  | [] => (substring_start, parameters, template)
  | m :: ms' =>
      let template := template ++ substring_js path substring_start (m_index m)
                               ++ replacement (m_group m) in
      parse_uri_path_loop path replacement ms' (m_index m + m_length m)
        (app parameters [m_group m]) template
  end.

Definition parse_uri_path (path : string) (replacement : string -> string)
    : string * list string :=
  let '(substring_start, parameters, template) :=
    parse_uri_path_loop path replacement (match_all path) 0 [] "" in
  let template := template ++ substring_js path substring_start (String.length path) in
  (ts_string_d template "`"%char, parameters).

(** ** Spec-side definitions and concrete inputs used by the properties *)

Definition tilde_doc : json :=
  JObj [("~", JStr "one tilde"); ("~~", JStr "two tildes"); ("a/b", JStr "slash")].

Definition flag_with_schema : json :=
  JObj [("name", JStr "done"); ("in", JStr "query"); ("allowEmptyValue", JBool true);
        ("x-isFlag", JBool true); ("schema", JObj [("type", JStr "boolean")])].

(** The preconditions the code checks on a flag parameter. *)
Definition flag_preconditions (header : json) : bool :=
  match get "in" header with Some v => is_str "query" v | None => false end
  && negb (truthy (get "required" header))
  && truthy (get "allowEmptyValue" header).

Definition accept_header_unknown_format : json :=
  JObj [("name", JStr "Accept"); ("in", JStr "header");
        ("schema", JObj [("type", JStr "string"); ("format", JStr "media-range")])].

Definition bearer_security : list SecurityRequirement := [[("bearer", [])]].

(** The spec's identifier rule: every hyphen becomes an underscore. *)
Fixpoint replace_hyphens (s : string) : string :=
  match s with
  | EmptyString => EmptyString
  | String c s' =>
      String (if Ascii.eqb c "-"%char then "_"%char else c) (replace_hyphens s')
  end.

(** The spec's naming source: the referenced schema's [title] when present,
    otherwise the final segment of the pointer. *)
Definition ref_name (target : json) (pointer : string) : option json :=
  match get "title" target with
  | Some t => Some t
  | None => option_map JStr (last_opt (split_on "/"%char pointer))
  end.

Definition thing_doc : json :=
  JObj [("components", JObj [("schemas",
    JObj [("my-thing", JObj [("type", JStr "string")])])])].

(** The spec's notion of a placeholder at the head of [l]: an opening
    brace, a non-empty run of characters other than a closing brace, and
    a closing brace; the run and the characters after the span. *)
Fixpoint take_while_not_close (l : list ascii) : list ascii :=
  match l with
  | [] => []
  | c :: l' => if Ascii.eqb c "}"%char then [] else c :: take_while_not_close l'
  end.

Fixpoint drop_while_not_close (l : list ascii) : list ascii :=
  match l with
  | [] => []
  | c :: l' => if Ascii.eqb c "}"%char then l else drop_while_not_close l'
  end.

Definition span_at (l : list ascii) : option (list ascii * list ascii) :=
  match l with
  | c :: rest =>
      if Ascii.eqb c "{"%char then
        match take_while_not_close rest, drop_while_not_close rest with
        | [], _ => None
        | content, _ :: r => Some (content, r)
        | _, [] => None
        end
      else None
  | [] => None
  end.

(** The spec's left-to-right scan: every span becomes [f] of its content
    and its content is recorded; other characters are copied.  Each step
    consumes at least one character, so [length l] steps suffice. *)
Fixpoint uri_template_scan (fuel : nat) (f : string -> string) (l : list ascii)
    : string * list string :=
  match fuel with
  | O => (string_of_list_ascii l, [])
  | S fuel' =>
      match l with
      | [] => (EmptyString, [])
      | c :: l' =>
          match span_at l with
          | Some (content, r) =>
              let res := uri_template_scan fuel' f r in
              (f (string_of_list_ascii content) ++ fst res,
               string_of_list_ascii content :: snd res)
          | None =>
              let res := uri_template_scan fuel' f l' in
              (String c (fst res), snd res)
          end
      end
  end.

Definition has_key (k : string) (l : list (string * json)) : bool :=
  match assoc k l with Some _ => true | None => false end.

(** The spec's schemas without transformable leaves, of nesting depth below
    [depth]: a schema object without [$ref], [allOf], [oneOf] or [anyOf]
    whose [type] is [null], [integer], [number] or [boolean]; or [string]
    with no [format], or a format that [string_formats[format]] does not
    find (neither a key of the registry nor a member of
    [Object.prototype]); or [array]
    whose [items], if any, are such a schema; or [object] whose
    [properties], if any, are all such schemas. *)
Fixpoint plain (fmts : Formats) (depth : nat) (s : json) : bool :=
  match depth with
  | O => false
  | S d =>
      match s with
      | JObj l =>
          negb (has_key "$ref" l || has_key "allOf" l || has_key "oneOf" l
                || has_key "anyOf" l) &&
          match assoc "type" l with
          | Some (JStr t) =>
              if existsb (String.eqb t) ["null"; "integer"; "number"; "boolean"]
              then true
              else if String.eqb t "string" then
                match assoc "format" l with
                | None => true
                | Some f => match lookup_format fmts f with None => true | Some _ => false end
                end
              else if String.eqb t "array" then
                match assoc "items" l with
                | None => true
                | Some it => plain fmts d it
                end
              else if String.eqb t "object" then
                match assoc "properties" l with
                | None => true
                | Some (JObj ps) => forallb (fun '(_, v) => plain fmts d v) ps
                | Some _ => false
                end
              else false
          | _ => false
          end
      | _ => false
      end
  end.

Definition uuid_array : json :=
  JObj [("type", JStr "array");
        ("items", JObj [("type", JStr "string"); ("format", JStr "uuid")])].

Definition plain_object : json :=
  JObj [("type", JStr "object");
        ("properties", JObj [("id", JObj [("type", JStr "integer")]);
                             ("tags", JObj [("type", JStr "array");
                                            ("items", JObj [("type", JStr "string")])]);
                             ("note", JObj [("type", JStr "string");
                                            ("format", JStr "no-such-format")])])].

(** ** Spec-side notions used by the properties of the remaining code *)

Definition not_tilde (c : ascii) : bool := negb (Ascii.eqb c "~"%char).

Definition is01 (c : ascii) : bool := Ascii.eqb c "0"%char || Ascii.eqb c "1"%char.

(** The RFC 6901 reading of the characters following a tilde, when each
    of them is [0] or [1]. *)
Fixpoint decode01 (r : string) : string :=
  match r with
  | EmptyString => EmptyString
  | String c r' => String (if Ascii.eqb c "0"%char then "~"%char else "/"%char) (decode01 r')
  end.

Definition is_digit (c : ascii) : bool :=
  let n := nat_of_ascii c in Nat.leb 48 n && Nat.leb n 57.

(** The value of a string of decimal digits, leading zeros allowed. *)
Definition digits_value (l : list ascii) : N :=
  fold_left (fun acc c => (acc * 10 + (N.of_nat (nat_of_ascii c) - 48))%N) l 0%N.

(** Reads back a literal delimited by [d] in which a backslash makes the
    next character literal: the contents and the text after the closing
    delimiter. *)
Fixpoint read_literal_body (d : ascii) (s : string) : option (string * string) :=
  match s with
  | EmptyString => None
  | String c s' =>
      if Ascii.eqb c "\"%char then
        match s' with
        | EmptyString => None
        | String e s'' =>
            match read_literal_body d s'' with
            | Some (b, r) => Some (String e b, r)
            | None => None
            end
        end
      else if Ascii.eqb c d then Some (EmptyString, s')
      else match read_literal_body d s' with
           | Some (b, r) => Some (String c b, r)
           | None => None
           end
  end.

Definition read_literal (d : ascii) (s : string) : option (string * string) :=
  match s with
  | String c s' => if Ascii.eqb c d then read_literal_body d s' else None
  | EmptyString => None
  end.

(** A small document with a response map and a server array. *)
Definition status_doc : json :=
  JObj [("responses", JObj [("200", JObj [("description", JStr "OK")])]);
        ("servers", JArr [JObj [("url", JStr "a")]; JObj [("url", JStr "b")]])].

(** Character classes for the identifier and path template properties. *)
Definition not_hyphen (c : ascii) : bool := negb (Ascii.eqb c "-"%char).
Definition not_open_brace (c : ascii) : bool := negb (Ascii.eqb c "{"%char).
Definition not_close_brace (c : ascii) : bool := negb (Ascii.eqb c "}"%char).

(** The [properties] and [required] a [merge_schemas] part lists, and the
    parts the TypeScript type [Schema & { type: 'object' }] describes: an
    object whose [properties] (when present) is an object and whose
    [required] (when present) is an array of strings. *)
Definition props_of (s : json) : list (string * json) :=
  match get "properties" s with Some (JObj ps) => ps | _ => [] end.

Definition reqs_of (s : json) : list json :=
  match get "required" s with Some (JArr rs) => rs | _ => [] end.

Definition is_jstr (v : json) : bool := match v with JStr _ => true | _ => false end.

Definition merge_part_ok (s : json) : bool :=
  match s with
  | JObj l =>
      match assoc "properties" l with None | Some (JObj _) => true | _ => false end &&
      match assoc "required" l with
      | None => true
      | Some (JArr rs) => forallb is_jstr rs
      | _ => false
      end
  | _ => false
  end.

(** ** json-schema.ts: [expand_vars] *)

(** [\w]: an ASCII letter, digit or underscore. *)
Definition is_word_char (c : ascii) : bool :=
  let n := nat_of_ascii c in
  (Nat.leb 48 n && Nat.leb n 57) || (Nat.leb 65 n && Nat.leb n 90) ||
  (Nat.leb 97 n && Nat.leb n 122) || Nat.eqb n 95.

Fixpoint take_word (l : list ascii) : list ascii :=
  match l with
  | c :: l' => if is_word_char c then c :: take_word l' else []
  | [] => []
  end.

Fixpoint drop_word (l : list ascii) : list ascii :=
  match l with
  | c :: l' => if is_word_char c then drop_word l' else l
  | [] => []
  end.

(** A match of [/\$\{(\w+)\}/] at the head of [l]: the name and the text
    after the match.  [\w+] is greedy and cannot give back a character to
    match [}], so the match is unique when it exists. *)
Definition var_at (l : list ascii) : option (list ascii * list ascii) :=
  match l with
  | "$"%char :: "{"%char :: rest =>
      match take_word rest, drop_word rest with
      | [], _ => None
      | name, "}"%char :: r => Some (name, r)
      | _, _ => None
      end
  | _ => None
  end.

(** The loop over [source.matchAll(/\$\{(\w+)\}/g)]: the text between
    matches is copied, each match is replaced by [env[name]], and an
    undefined variable throws.  [env] is [process.env]. *)
Fixpoint expand_scan (env : string -> option string) (fuel : nat) (l : list ascii)
    : result string :=
  match fuel with
  | O => Ok (string_of_list_ascii l)
  | S fuel' =>
      match l with
      | [] => Ok EmptyString
      | c :: l' =>
          match var_at l with
          | Some (name, r) =>
              match env (string_of_list_ascii name) with
              | None =>
                  Err (GenError ("Referenced environment variable '" ++
                                 string_of_list_ascii name ++ "', but it's not defined"))
              | Some value =>
                  rest <- expand_scan env fuel' r ;;
                  Ok (value ++ rest)
              end
          | None =>
              rest <- expand_scan env fuel' l' ;;
              Ok (String c rest)
          end
      end
  end.

Definition expand_vars (env : string -> option string) (source : string) : result string :=
  expand_scan env (String.length source) (list_ascii_of_string source).

(** The environment that maps every name to its own reference [${name}]. *)
Definition self_env (name : string) : option string :=
  Some ("${" ++ name ++ "}").

Definition not_dollar (c : ascii) : bool := negb (Ascii.eqb c "$"%char).

(** Schemas on which each step of [schema_to_typescript] takes a branch
    that cannot throw, nested at most [d] deep: no [$ref] (it needs the
    document), combinator fields that are arrays of such schemas, and a
    [type] the compiler handles with well-formed fields.  A schema without
    keys (a boolean, a number, [{}]) is one too. *)
Fixpoint ts_plain (fmts : Formats) (d : nat) (s : json) : bool :=
  match d with
  | O => false
  | S d' =>
      match s with
      | JNull => false
      | JObj l =>
          if Nat.eqb (length l) 0 then true else
          match assoc "$ref" l with Some _ => false | None =>
          match assoc "allOf" l with
          | Some (JArr ps) => forallb (ts_plain fmts d') ps
          | Some _ => false
          | None =>
          match assoc "oneOf" l with
          | Some (JArr ps) => forallb (ts_plain fmts d') ps
          | Some _ => false
          | None =>
          match assoc "anyOf" l with
          | Some (JArr ps) => forallb (ts_plain fmts d') ps
          | Some _ => false
          | None =>
          match assoc "type" l with None => false | Some _ =>
          if type_is "null" s || type_is "boolean" s || type_is "integer" s
             || type_is "number" s then true
          else if type_is "string" s then
            match assoc "enum" l with
            | Some (JArr _) => true
            | Some _ => false
            | None =>
                match assoc "const" l with
                | Some _ => true
                | None =>
                    match assoc "format" l with
                    | None => true
                    | Some f =>
                        match lookup_format fmts f with Some _ => true | None => false end
                    end
                end
            end
          else if type_is "array" s then
            match assoc "items" l with None => true | Some it => ts_plain fmts d' it end
          else if type_is "object" s then
            match assoc "properties" l with
            | None | Some JNull => true
            | Some (JObj ps) => forallb (fun e => ts_plain fmts d' (snd e)) ps
            | Some _ => false
            end &&
            match assoc "required" l with
            | None | Some JNull | Some (JArr _) | Some (JStr _) => true
            | Some _ => false
            end &&
            match assoc "additionalProperties" l with
            | None | Some (JBool _) => true
            | Some _ => false
            end
          else false
          end end end end end
      | _ => match js_keys_length s with Ok 0 => true | _ => false end
      end
  end.

(** * Properties *)

(** ** Helper lemmas *)

Lemma js_in_obj : forall k l,
  js_in k (JObj l) = Ok (match assoc k l with Some _ => true | None => false end).
Proof. reflexivity. Qed.

Lemma get_obj : forall k l, get k (JObj l) = assoc k l.
Proof. reflexivity. Qed.

Lemma type_is_obj : forall t l,
  type_is t (JObj l) = match assoc "type" l with Some v => is_str t v | None => false end.
Proof. reflexivity. Qed.

Lemma bind_ok : forall A B (a : A) (k : A -> result B), bind (Ok a) k = k a.
Proof. reflexivity. Qed.

Lemma bind_err : forall A B (e : error) (k : A -> result B), bind (Err e) k = Err e.
Proof. reflexivity. Qed.



(** ** C3: content-type matching *)

(** C3 (code_bug).  [content_type_matches] accepts the clause [text/*]
    against [text/plain] and rejects the clause [text/plain] against the
    target [text/*], but it rejects the clause [*/*] against the target
    [anything/here], although its documentation lists exactly this call
    as returning [true]: a wildcard type in
    the clause is only honoured when the target's type is itself [*]. *)
Theorem content_type_matches_examples :
  content_type_matches ("text", "*") ("text", "plain") = true /\
  content_type_matches ("*", "*") ("anything", "here") = false /\
  content_type_matches ("text", "plain") ("text", "*") = false.
Proof. repeat split; reflexivity. Qed.

(** ** C4: unescaping of JSON-pointer components *)

(** C4 (code_bug).  [json_path_unescape] emits the tilde of an escape
    before looking at the next character and never resets [last] after an
    escape: ["~0"] unescapes to ["~~"] instead of ["~"], ["~1"] to ["~/"],
    and ["a~1b"] is rejected.  The resolver therefore indexes the key ["~~"]
    for the component [~0] and fails on the component [a~1b]. *)
Theorem json_path_unescape_keeps_tilde :
  json_path_unescape "~0" = Ok "~~" /\
  json_path_unescape "~1" = Ok "~/" /\
  json_path_unescape "a~1b" = Err (GenError "Invalid escape found: ~b ") /\
  resolveReference tilde_doc "#/~0" = Ok (JStr "two tildes") /\
  resolveReference tilde_doc "#/a~1b" = Err (GenError "Invalid escape found: ~b ").
Proof. repeat split; vm_compute; reflexivity. Qed.

(** ** C7: the [x-isFlag] extension *)

(** C7, counterexample.  A flag parameter that carries a [schema] but meets
    the other preconditions is accepted (the schema is ignored with a
    warning) and compiles to [true]. *)
Lemma x_isFlag_schema_accepted :
  unpack_parameter_expression (fun _ => Err OutOfFuel) flag_with_schema = Ok ["true"].
Proof. reflexivity. Qed.

(** C7 (amended).  For a parameter carrying [x-isFlag],
    [unpack_parameter_expression] fails at generation time when the
    parameter is not in [query], is required, or does not allow empty
    values, and otherwise compiles to the constant [true]; a [schema] on the
    parameter does not make it fail. *)
Theorem x_isFlag_unpack :
  forall unpack_rest l v,
    assoc "x-isFlag" l = Some v ->
    (flag_preconditions (JObj l) = true ->
       unpack_parameter_expression unpack_rest (JObj l) = Ok ["true"]) /\
    (flag_preconditions (JObj l) = false ->
       exists e, unpack_parameter_expression unpack_rest (JObj l) = Err e).
Proof.
  intros unpack_rest l v Hflag.
  unfold unpack_parameter_expression, flag_preconditions.
  rewrite js_in_obj, Hflag, bind_ok, get_obj, get_obj, get_obj.
  destruct (match assoc "in" l with Some v => is_str "query" v | None => false end);
    destruct (truthy (assoc "required" l));
    destruct (truthy (assoc "allowEmptyValue" l));
    cbn; split; intros H; try discriminate; eauto.
Qed.

(** ** C10: ignored header parameters *)

(** C10, counterexample.  [format_parameter] computes the parameter's type
    before looking at its location and name, so an [Accept] header whose
    schema the type compiler rejects raises that error instead of
    returning [null]. *)
Lemma accept_header_type_error :
  format_parameter accept_header_unknown_format "types" DEFAULT_STRING_FORMATS
    (JObj []) 5 = Err (NotImplemented "Strings with media-range format").
Proof. reflexivity. Qed.

(** C10 (amended).  For a header parameter whose type compiles,
    [format_parameter] returns [null] when the name is exactly [Accept],
    [Content-Type] or [Authorization], and otherwise a field with that type
    whose optionality is the negation of the [required] flag; when the type
    does not compile, its error propagates for every name. *)
Theorem format_parameter_header :
  forall l name ns fmts doc fuel,
    assoc "name" l = Some (JStr name) ->
    assoc "in" l = Some (JStr "header") ->
    (forall ty, format_parameter_type ns fmts doc fuel (JObj l) = Ok ty ->
       format_parameter (JObj l) ns fmts doc fuel =
       Ok (if existsb (String.eqb name) ignored_headers then PNull
           else PField {| of_name := name; of_type := ty;
                          of_optional := Some (negb (truthy (assoc "required" l)));
                          of_raw := false |})) /\
    (forall e, format_parameter_type ns fmts doc fuel (JObj l) = Err e ->
       format_parameter (JObj l) ns fmts doc fuel = Err e).
Proof.
  intros l name ns fmts doc fuel Hname Hin; split; intros r Hty;
    unfold format_parameter; rewrite get_obj, Hname, bind_ok, Hty;
    [rewrite bind_ok, get_obj, Hin; rewrite get_obj;
     destruct (existsb (String.eqb name) ignored_headers)
    | rewrite bind_err]; reflexivity.
Qed.

(** ** C1: string formats missing from the registry *)



(** ** C8: [allOf] with a part that is not an object *)

(** C8, counterexample.  An [allOf] with a string part is not rejected:
    the parser and serializer compilers return the value unchanged. *)
Lemma allOf_non_object_noop :
  schema_to_parser 3
    (JObj [("allOf", JArr [JObj [("type", JStr "object")]; JObj [("type", JStr "string")]])])
    (JObj []) DEFAULT_STRING_FORMATS "x" = Ok ["x"] /\
  schema_to_serializer 3
    (JObj [("allOf", JArr [JObj [("type", JStr "object")]; JObj [("type", JStr "string")]])])
    (JObj []) DEFAULT_STRING_FORMATS "x" = Ok ["x"].
Proof. split; reflexivity. Qed.

(** C8 (amended).  For a schema object with an [allOf] array (and no
    [$ref]) whose parts all resolve, if some resolved part is not of type
    [object], the parser and serializer compilers do not fail: they emit a
    warning and return the value expression [x] unchanged. *)
Theorem allOf_non_object_passthrough :
  forall doc fmts m fuel l parts resolved x,
    assoc "$ref" l = None ->
    assoc "allOf" l = Some (JArr parts) ->
    mapM (resolve_if_ref doc) parts = Ok resolved ->
    existsb (fun p => negb (type_is "object" p)) resolved = true ->
    schema_to_serializer_or_parser doc fmts m (S fuel) (JObj l) x = Ok [x].
Proof.
  intros doc fmts m fuel l parts resolved x Hr Ha Hm Hex.
  unfold schema_to_serializer_or_parser; cbn [sp_inner].
  rewrite js_in_obj, Hr, bind_ok, js_in_obj, Ha, bind_ok.
  unfold array_field; rewrite get_obj, Ha, bind_ok, Hm, bind_ok.
  assert (Hf : forallb (type_is "object") resolved = false).
  { clear Hm; induction resolved as [|p ps IH]; cbn in *; [discriminate|].
    destruct (type_is "object" p); cbn in *; auto. }
  rewrite Hf; reflexivity.
Qed.

(** ** Witnesses for C1, C7, C8 and C10 *)


Lemma x_isFlag_unpack_witness :
  flag_preconditions flag_with_schema = true /\
  unpack_parameter_expression (fun _ => Err OutOfFuel) flag_with_schema = Ok ["true"].
Proof.
  split; [vm_compute; reflexivity|].
  apply (proj1 (x_isFlag_unpack (fun _ => Err OutOfFuel)
    [("name", JStr "done"); ("in", JStr "query"); ("allowEmptyValue", JBool true);
     ("x-isFlag", JBool true); ("schema", JObj [("type", JStr "boolean")])]
    (JBool true) eq_refl)).
  vm_compute; reflexivity.
Defined.

Lemma allOf_non_object_passthrough_witness :
  schema_to_serializer_or_parser (JObj []) DEFAULT_STRING_FORMATS parser 3
    (JObj [("allOf", JArr [JObj [("type", JStr "object")]; JObj [("type", JStr "string")]])])
    "v" = Ok ["v"].
Proof.
  apply (allOf_non_object_passthrough (JObj []) DEFAULT_STRING_FORMATS parser 2
    [("allOf", JArr [JObj [("type", JStr "object")]; JObj [("type", JStr "string")]])]
    [JObj [("type", JStr "object")]; JObj [("type", JStr "string")]]
    [JObj [("type", JStr "object")]; JObj [("type", JStr "string")]]);
    vm_compute; reflexivity.
Defined.

Lemma format_parameter_header_witness :
  format_parameter_type "types." DEFAULT_STRING_FORMATS (JObj []) 5
    (JObj [("name", JStr "X-Trace"); ("in", JStr "header");
           ("schema", JObj [("type", JStr "string")])]) = Ok ["string"] /\
  format_parameter
    (JObj [("name", JStr "X-Trace"); ("in", JStr "header");
           ("schema", JObj [("type", JStr "string")])])
    "types." DEFAULT_STRING_FORMATS (JObj []) 5
  = Ok (PField {| of_name := "X-Trace"; of_type := ["string"];
                  of_optional := Some true; of_raw := false |}).
Proof.
  split; [vm_compute; reflexivity|].
  exact (proj1 (format_parameter_header
    [("name", JStr "X-Trace"); ("in", JStr "header");
     ("schema", JObj [("type", JStr "string")])]
    "X-Trace" "types." DEFAULT_STRING_FORMATS (JObj []) 5 eq_refl eq_refl)
    ["string"] eq_refl).
Defined.

(** ** C2: the [401] response of an authenticated operation *)

(** C2, counterexample.  The operation is authenticated and the client's
    return type drops its [401] response, yet the handler type of the
    server still lists a [{ "status": 401 }] variant:
    [format_operation_as_server_endpoint_handler_type] receives no security
    requirement. *)
Lemma handler_type_keeps_401 :
  is_authenticated bearer_security = true /\
  get_return_type "401" (JObj []) bearer_security "types" DEFAULT_STRING_FORMATS
    (JObj []) 5 = Ok None /\
  handler_type_results [("401", JObj [])] "types" DEFAULT_STRING_FORMATS (JObj []) 5
    = Ok [["{"; ts_string "status" ++ ":"; "401"; ","; "}"]].
Proof. repeat split; reflexivity. Qed.

(** C2 (amended).  For an authenticated operation, [get_return_type]
    yields nothing for status [401] as soon as the response resolves; the
    server handler type, however, has one variant per non-[default]
    status, in order, each starting with [{ "status": <status>], so a
    declared [401] is part of it whatever the security requirement. *)
Theorem authenticated_401_client_only :
  (forall security response_ response types_symbol fmts doc fuel,
     is_authenticated security = true ->
     resolve response_ doc = Ok response ->
     get_return_type "401" response_ security types_symbol fmts doc fuel = Ok None) /\
  (forall responses types_symbol fmts doc fuel rs,
     handler_type_results responses types_symbol fmts doc fuel = Ok rs ->
     Forall2 (fun status r => firstn 3 r = ["{"; ts_string "status" ++ ":"; status])
       (filter (fun status => negb (String.eqb status "default")) (map fst responses)) rs).
Proof.
  split.
  - intros security response_ response types_symbol fmts doc fuel Ha Hr.
    unfold get_return_type; cbn [String.eqb Ascii.eqb Bool.eqb].
    rewrite Hr, bind_ok, Ha; reflexivity.
  - intros responses types_symbol fmts doc fuel.
    induction responses as [|[status r] rest IH]; intros rs H; cbn in H.
    + injection H as <-; constructor.
    + cbn [map fst filter].
      destruct (String.eqb status "default"); cbn [negb].
      * apply IH; exact H.
      * unfold bind in H.
        repeat match type of H with
               | context [match ?m with Ok _ => _ | Err _ => _ end] =>
                   let E := fresh "E" in
                   destruct m eqn:E; [|discriminate]
               end.
        injection H as <-; constructor; [reflexivity|].
        apply IH; reflexivity.
Qed.

Lemma authenticated_401_client_only_witness :
  get_return_type "401" (JObj []) bearer_security "types" DEFAULT_STRING_FORMATS
    (JObj []) 5 = Ok None /\
  Forall2 (fun status r => firstn 3 r = ["{"; ts_string "status" ++ ":"; status])
    ["200"; "401"]
    [["{"; ts_string "status" ++ ":"; "200"; ","; "}"];
     ["{"; ts_string "status" ++ ":"; "401"; ","; "}"]].
Proof.
  split.
  - apply (proj1 authenticated_401_client_only bearer_security (JObj []) (JObj []));
      reflexivity.
  - apply (proj2 authenticated_401_client_only
             [("200", JObj []); ("401", JObj []); ("default", JObj [])]
             "types" DEFAULT_STRING_FORMATS (JObj []) 5).
    vm_compute; reflexivity.
Defined.

(** ** C6: references compile to a qualified name *)

Lemma split_on_not_nil : forall c s, split_on c s <> [].
Proof.
  intros c s; induction s as [|d s IH]; cbn; [discriminate|].
  destruct (Ascii.eqb c d); [discriminate|].
  destruct (split_on c s); discriminate.
Qed.

Lemma to_ts_identifier_replace_hyphens :
  forall s, to_ts_identifier s = replace_hyphens s.
Proof.
  unfold to_ts_identifier; intros s; induction s as [|d s IH]; [reflexivity|].
  cbn [split_on replace_hyphens].
  pose proof (split_on_not_nil "-"%char s) as Hne.
  destruct (split_on "-"%char s) as [|w ws] eqn:E; [congruence|].
  destruct (Ascii.eqb "-"%char d) eqn:Hd.
  - apply Ascii.eqb_eq in Hd; subst d; cbn.
    rewrite <- IH; reflexivity.
  - rewrite Ascii.eqb_sym, Hd; rewrite <- IH.
    destruct ws; reflexivity.
Qed.

(** C6.  A schema object with a [$ref] whose pointer resolves to an object
    compiles to exactly one fragment: the namespace followed by the
    referenced schema's [title] when it has one, otherwise the last
    segment of the pointer, with every hyphen replaced by an underscore;
    nothing of the referenced schema's structure is emitted. *)
Theorem ref_compiles_to_name :
  forall ns fmts doc fuel l p target s,
    assoc "$ref" l = Some (JStr p) ->
    resolveReference doc p = Ok target ->
    isObject target = true ->
    ref_name target p = Some (JStr s) ->
    s <> EmptyString ->
    schema_to_typescript ns fmts doc (S fuel) (JObj l) = Ok [ns ++ replace_hyphens s].
Proof.
  intros ns fmts doc fuel l p target s Hr Hres Hobj Hname Hs.
  destruct l as [|q l]; [discriminate|].
  destruct target as [| | | | |tl]; try discriminate.
  assert (Hn : ts_name_for_reference (JObj (q :: l)) doc = Ok (replace_hyphens s)).
  { unfold ts_name_for_reference, resolve.
    rewrite js_in_obj, get_obj, Hr, bind_ok, Hres, bind_ok; cbn [isObject negb].
    rewrite bind_ok, js_in_obj, bind_ok, get_obj.
    unfold ref_name in Hname; rewrite get_obj in Hname.
    destruct (assoc "title" tl) as [t|] eqn:Ht.
    - injection Hname as ->.
      destruct s; [congruence|]; cbn -[to_ts_identifier].
      rewrite to_ts_identifier_replace_hyphens; reflexivity.
    - rewrite Hname.
      destruct s; [congruence|]; cbn -[to_ts_identifier].
      rewrite to_ts_identifier_replace_hyphens; reflexivity. }
  unfold schema_to_typescript; cbn -[assoc ts_name_for_reference].
  rewrite Hr; cbn -[assoc ts_name_for_reference].
  rewrite Hn; reflexivity.
Qed.

Lemma ref_compiles_to_name_witness :
  schema_to_typescript "types." DEFAULT_STRING_FORMATS thing_doc 3
    (JObj [("$ref", JStr "#/components/schemas/my-thing")])
  = Ok ["types." ++ replace_hyphens "my-thing"].
Proof.
  apply (ref_compiles_to_name "types." DEFAULT_STRING_FORMATS thing_doc 2
           [("$ref", JStr "#/components/schemas/my-thing")]
           "#/components/schemas/my-thing" (JObj [("type", JStr "string")]) "my-thing");
    [reflexivity | vm_compute; reflexivity | reflexivity | reflexivity | discriminate].
Defined.

(** ** C9: path templates *)

Lemma take_until_close_eq : forall l,
  take_until_close l =
  match drop_while_not_close l with
  | [] => None
  | _ :: r => Some (take_while_not_close l, r)
  end.
Proof.
  induction l as [|c l IH]; [reflexivity|]; cbn.
  destruct (Ascii.eqb c "}"%char); [reflexivity|].
  rewrite IH; destruct (drop_while_not_close l); reflexivity.
Qed.

Lemma span_at_match_at : forall l, span_at l = match_at l.
Proof.
  intros [|c l]; [reflexivity|]; cbn.
  destruct (Ascii.eqb c "{"%char); [|reflexivity].
  rewrite take_until_close_eq.
  destruct (take_while_not_close l), (drop_while_not_close l); reflexivity.
Qed.

Lemma take_until_close_some : forall l a r,
  take_until_close l = Some (a, r) -> l = (a ++ "}"%char :: r)%list.
Proof.
  induction l as [|c l IH]; intros a r H; cbn in H; [discriminate|].
  destruct (Ascii.eqb c "}"%char) eqn:E.
  - apply Ascii.eqb_eq in E; injection H as <- <-; subst; reflexivity.
  - destruct (take_until_close l) as [[a' r']|] eqn:Ht; [|discriminate].
    injection H as <- <-; cbn; f_equal; apply IH; reflexivity.
Qed.

Lemma match_at_some : forall l a r,
  match_at l = Some (a, r) -> l = ("{"%char :: a ++ "}"%char :: r)%list.
Proof.
  intros [|c l] a r H; cbn in H; [discriminate|].
  destruct (Ascii.eqb c "{"%char) eqn:E; [|discriminate].
  apply Ascii.eqb_eq in E; subst c.
  destruct (take_until_close l) as [[a' r']|] eqn:Ht; [|discriminate].
  destruct a'; [discriminate|]; injection H as <- <-.
  rewrite (take_until_close_some _ _ _ Ht); reflexivity.
Qed.

Lemma string_of_list_ascii_app : forall a b,
  string_of_list_ascii (a ++ b) = (string_of_list_ascii a ++ string_of_list_ascii b)%string.
Proof. induction a as [|c a IH]; intros b; cbn; [reflexivity|]; rewrite IH; reflexivity. Qed.

Lemma string_app_assoc : forall a b c : string, ((a ++ b) ++ c = a ++ (b ++ c))%string.
Proof. induction a as [|x a IH]; intros b c; cbn; [reflexivity|]; rewrite IH; reflexivity. Qed.

Lemma length_list_ascii_of_string : forall s,
  length (list_ascii_of_string s) = String.length s.
Proof. induction s as [|c s IH]; cbn; auto. Qed.

Lemma firstn_add_skipn : forall A n m (l : list A),
  firstn (n + m) l = (firstn n l ++ firstn m (skipn n l))%list.
Proof.
  induction n as [|n IH]; intros m l; [reflexivity|].
  destruct l as [|a l]; cbn; [destruct m; reflexivity|]; rewrite IH; reflexivity.
Qed.

Lemma skipn_span : forall (a : list ascii) x y r,
  skipn (length a + 2) (x :: a ++ y :: r)%list = r.
Proof. induction a as [|c a IH]; intros x y r; [reflexivity|]; apply IH. Qed.

Section UriTemplate.
Variable path : string.
Variable f : string -> string.

Lemma substring_to_end : forall start i,
  start <= i ->
  substring_js path start (String.length path)
  = (substring_js path start i ++ string_of_list_ascii (skipn i (list_ascii_of_string path)))%string.
Proof.
  intros start i Hle; unfold substring_js.
  rewrite <- string_of_list_ascii_app; f_equal.
  rewrite <- length_list_ascii_of_string.
  rewrite firstn_all2 by (rewrite length_skipn; lia).
  replace i with ((i - start) + start) at 2 by lia.
  rewrite <- skipn_skipn; symmetry; apply firstn_skipn.
Qed.

Lemma substring_step : forall start i c l,
  start <= i -> skipn i (list_ascii_of_string path) = c :: l ->
  substring_js path start (S i) = (substring_js path start i ++ String c EmptyString)%string.
Proof.
  intros start i c l Hle Hs; unfold substring_js.
  replace (S i - start) with ((i - start) + 1) by lia.
  rewrite firstn_add_skipn, string_of_list_ascii_app; f_equal.
  rewrite skipn_skipn, Nat.sub_add by exact Hle; rewrite Hs; reflexivity.
Qed.

Lemma substring_empty : forall i, substring_js path i i = EmptyString.
Proof. intros i; unfold substring_js; rewrite Nat.sub_diag; reflexivity. Qed.

Lemma parse_uri_path_loop_scan : forall fuel i l start params tmpl,
  skipn i (list_ascii_of_string path) = l -> start <= i ->
  let res := parse_uri_path_loop path f (match_all_from fuel i l) start params tmpl in
  snd (fst res) = app params (snd (uri_template_scan fuel f l)) /\
  (snd res ++ substring_js path (fst (fst res)) (String.length path))%string
  = (tmpl ++ (substring_js path start i ++ fst (uri_template_scan fuel f l)))%string.
Proof.
  induction fuel as [|fuel IH]; intros i l start params tmpl Hs Hle; cbn zeta.
  - cbn; split; [rewrite app_nil_r; reflexivity|].
    rewrite (substring_to_end start i Hle), Hs; reflexivity.
  - destruct l as [|c l'].
    + cbn; split; [rewrite app_nil_r; reflexivity|].
      rewrite (substring_to_end start i Hle), Hs; reflexivity.
    + cbn [match_all_from uri_template_scan]; rewrite span_at_match_at.
      destruct (match_at (c :: l')) as [[content r]|] eqn:Hm.
      * cbn [parse_uri_path_loop m_index m_length m_group fst snd].
        replace (i + (length content + 2)) with (i + length content + 2) by lia.
        pose proof (match_at_some _ _ _ Hm) as Hl.
        assert (Hr : skipn (i + length content + 2) (list_ascii_of_string path) = r).
        { replace (i + length content + 2) with ((length content + 2) + i) by lia.
          rewrite <- skipn_skipn, Hs, Hl; apply skipn_span. }
        destruct (IH (i + length content + 2) r (i + length content + 2)
                    (app params [string_of_list_ascii content])
                    (tmpl ++ (substring_js path start i ++ f (string_of_list_ascii content)))%string
                    Hr (le_n _)) as [H1 H2].
        split.
        -- rewrite H1, <- app_assoc; reflexivity.
        -- rewrite H2, substring_empty; cbn [String.append].
           rewrite !string_app_assoc; reflexivity.
      * cbn [parse_uri_path_loop fst snd].
        assert (Hs' : skipn (S i) (list_ascii_of_string path) = l').
        { replace (S i) with (1 + i) by lia; rewrite <- skipn_skipn, Hs; reflexivity. }
        destruct (IH (S i) l' start params tmpl Hs' (Nat.le_le_succ_r _ _ Hle)) as [H1 H2].
        split; [exact H1|].
        rewrite H2, (substring_step start i c l' Hle Hs), string_app_assoc; reflexivity.
Qed.

Lemma parse_uri_path_scan :
  parse_uri_path path f
  = (ts_string_d (fst (uri_template_scan (String.length path) f (list_ascii_of_string path))) "`"%char,
     snd (uri_template_scan (String.length path) f (list_ascii_of_string path))).
Proof.
  unfold parse_uri_path, match_all.
  pose proof (parse_uri_path_loop_scan (String.length path) 0 (list_ascii_of_string path) 0 [] EmptyString
                eq_refl (le_n 0)) as H; cbn zeta in H.
  destruct (parse_uri_path_loop path f (match_all_from (String.length path) 0 (list_ascii_of_string path)) 0 [] EmptyString)
    as [[ss ps] t]; cbn in H; destruct H as [H1 H2].
  rewrite H2, H1; reflexivity.
Qed.
End UriTemplate.

(** C9.  [parse_uri_path('/entry/{id}/completed', f)] is the backtick
    literal of [/entry/], [f('id')] and [/completed], with the placeholder
    list [['id']]; and for every path, the template is the backtick literal
    of the left-to-right scan that replaces each [{...}] span by [f] of its
    content and copies every other character, the placeholders being the
    span contents in order of occurrence. *)
Theorem parse_uri_path_template :
  (forall f, parse_uri_path "/entry/{id}/completed" f
             = (ts_string_d ("/entry/" ++ f "id" ++ "/completed") "`"%char, ["id"])) /\
  (forall path f, parse_uri_path path f
     = (ts_string_d (fst (uri_template_scan (String.length path) f
                            (list_ascii_of_string path))) "`"%char,
        snd (uri_template_scan (String.length path) f (list_ascii_of_string path)))).
Proof.
  split.
  - intros f; reflexivity.
  - exact parse_uri_path_scan.
Qed.

(** ** C5: schemas with no transformable leaves *)

Section NoOp.
Variable document : json.
Variable fmts : Formats.
Variable m : mode.

Lemma sp_inner_plain : forall d s x,
  plain fmts d s = true -> sp_inner document fmts m d s x = Ok None.
Proof.
  induction d as [|d IH]; intros s x Hp; [discriminate|].
  destruct s as [| | | | |l]; try discriminate.
  cbn [plain] in Hp; apply andb_prop in Hp as [Hc Ht].
  unfold has_key in Hc.
  cbn [sp_inner]; rewrite ?js_in_obj, ?get_obj, ?type_is_obj.
  destruct (assoc "$ref" l); [discriminate|]; rewrite bind_ok.
  destruct (assoc "allOf" l); [discriminate|]; rewrite bind_ok.
  destruct (assoc "oneOf" l); [discriminate|]; rewrite bind_ok.
  destruct (assoc "anyOf" l); [discriminate|]; rewrite bind_ok.
  cbn [orb negb].
  destruct (assoc "type" l) as [[| | | t | |]|]; try discriminate.
  rewrite bind_ok; cbn [is_str].
  destruct (String.eqb_spec t "null"); [subst; reflexivity|].
  destruct (String.eqb_spec t "integer"); [subst; reflexivity|].
  destruct (String.eqb_spec t "number"); [subst; reflexivity|].
  destruct (String.eqb_spec t "boolean"); [subst; reflexivity|].
  destruct (String.eqb_spec t "string").
  { subst; cbn in Ht |- *.
    destruct (assoc "format" l) as [f|]; [|reflexivity].
    destruct (lookup_format fmts f); [discriminate|reflexivity]. }
  destruct (String.eqb_spec t "array").
  { subst; cbn in Ht |- *.
    destruct (assoc "items" l) as [it|]; [|reflexivity].
    rewrite IH by exact Ht; reflexivity. }
  destruct (String.eqb_spec t "object").
  { subst; cbn in Ht |- *.
    destruct (assoc "properties" l) as [[| | | | |ps]|]; try discriminate; [|reflexivity].
    cbn [js_entries]; rewrite bind_ok.
    assert (Hf : forall req, object_fields (sp_inner document fmts m d) x req ps = Ok []).
    { intros req; induction ps as [|[k v] ps IHps]; [reflexivity|].
      cbn in Ht; apply andb_prop in Ht as [Hv Hps].
      cbn [object_fields]; rewrite (IH v _ Hv), bind_ok, bind_ok, (IHps Hps).
      reflexivity. }
    rewrite Hf, bind_ok; reflexivity. }
  cbn [existsb] in Ht.
  repeat match type of Ht with
         | context [String.eqb t ?s] =>
             let E := fresh in
             destruct (String.eqb_spec t s) as [E|E]; [congruence|]
         end.
  all: discriminate.
Qed.
End NoOp.

(** C5, counterexample.  An array of [uuid] strings has no transformation
    to perform (the [uuid] format's parser and serializer are the
    identity), yet both compilers wrap [x] in a [map]. *)
Lemma uuid_array_wrapped :
  schema_to_parser 3 uuid_array (JObj []) DEFAULT_STRING_FORMATS "x"
    = Ok ["x.map((x: any) => "; "x"; ")"] /\
  schema_to_serializer 3 uuid_array (JObj []) DEFAULT_STRING_FORMATS "x"
    = Ok ["x.map((x: any) => "; "x"; ")"].
Proof. split; reflexivity. Qed.

(** C5 (amended).  For a schema built from [null], [integer], [number] and
    [boolean] schemas, [string] schemas without a format or with a format
    that is neither a key of the registry nor the name of a member of
    [Object.prototype], and arrays and objects of such (at a nesting depth
    the fuel covers), [schema_to_parser] and [schema_to_serializer] return
    exactly the value expression [x].  A string with a registered format,
    even one whose conversion is the identity, is not covered. *)
Theorem plain_schema_identity :
  forall fuel schema document fmts x,
    plain fmts fuel schema = true ->
    schema_to_parser fuel schema document fmts x = Ok [x] /\
    schema_to_serializer fuel schema document fmts x = Ok [x].
Proof.
  intros fuel schema document fmts x Hp.
  unfold schema_to_parser, schema_to_serializer, schema_to_serializer_or_parser.
  assert (Hobj : exists l, schema = JObj l).
  { destruct fuel; [discriminate|]; destruct schema; try discriminate; eauto. }
  destruct Hobj as [l ->].
  rewrite !sp_inner_plain by exact Hp; split; reflexivity.
Qed.

Lemma plain_schema_identity_witness :
  schema_to_parser 3 plain_object (JObj []) DEFAULT_STRING_FORMATS "v" = Ok ["v"] /\
  schema_to_serializer 3 plain_object (JObj []) DEFAULT_STRING_FORMATS "v" = Ok ["v"].
Proof.
  apply (plain_schema_identity 3 plain_object (JObj []) DEFAULT_STRING_FORMATS "v").
  vm_compute; reflexivity.
Defined.

(** * Properties of the remaining code *)

(** ** json-pointer.ts *)

Lemma json_path_unescape_go_free : forall s last,
  forallb not_tilde (list_ascii_of_string s) = true ->
  match last with Some l => Ascii.eqb l "~"%char | None => false end = false ->
  json_path_unescape_go last s = Ok s.
Proof.
  induction s as [|c s IH]; intros last Hs Hl; [reflexivity|].
  cbn in Hs; apply andb_prop in Hs as [Hc Hs].
  cbn; rewrite Hl, (IH (Some c) Hs).
  - reflexivity.
  - unfold not_tilde in Hc; destruct (Ascii.eqb c "~"%char); [discriminate|reflexivity].
Qed.

Lemma json_path_unescape_go_tilde : forall r,
  (forallb is01 (list_ascii_of_string r) = true ->
     json_path_unescape_go (Some "~"%char) r = Ok (decode01 r)) /\
  (forallb is01 (list_ascii_of_string r) = false ->
     exists c, In c (list_ascii_of_string r) /\ is01 c = false /\
       json_path_unescape_go (Some "~"%char) r
       = Err (GenError ("Invalid escape found: ~" ++ char_str c ++ " "))).
Proof.
  induction r as [|c r [IH1 IH2]]; [split; [reflexivity|discriminate]|].
  cbn [list_ascii_of_string forallb].
  change (is01 c) with (Ascii.eqb c "0"%char || Ascii.eqb c "1"%char).
  cbn [json_path_unescape_go Ascii.eqb Bool.eqb].
  destruct (Ascii.eqb c "0"%char) eqn:E0; [|destruct (Ascii.eqb c "1"%char) eqn:E1]; cbn [orb andb].
  - split.
    + intros H; rewrite (IH1 H); cbn; rewrite E0; reflexivity.
    + intros H; destruct (IH2 H) as [c' [Hin [Hb He]]].
      exists c'; split; [right; exact Hin|split; [exact Hb|]]; rewrite He; reflexivity.
  - split.
    + intros H; rewrite (IH1 H); cbn; rewrite E0; reflexivity.
    + intros H; destruct (IH2 H) as [c' [Hin [Hb He]]].
      exists c'; split; [right; exact Hin|split; [exact Hb|]]; rewrite He; reflexivity.
  - split; [discriminate|intros _].
    exists c; split; [left; reflexivity|split; [unfold is01; rewrite E0, E1; reflexivity|reflexivity]].
Qed.

Lemma json_path_unescape_go_prefix : forall p last s,
  forallb not_tilde (list_ascii_of_string p) = true ->
  match last with Some l => Ascii.eqb l "~"%char | None => false end = false ->
  json_path_unescape_go last (p ++ String "~"%char s)
  = (x <- json_path_unescape_go (Some "~"%char) s ;; Ok (p ++ String "~"%char x)).
Proof.
  induction p as [|c p IH]; intros last s Hp Hl.
  - cbn [String.append json_path_unescape_go]; rewrite Hl; reflexivity.
  - cbn in Hp; apply andb_prop in Hp as [Hc Hp].
    cbn [String.append json_path_unescape_go]; rewrite Hl.
    rewrite (IH (Some c) s Hp).
    + destruct (json_path_unescape_go (Some "~"%char) s); reflexivity.
    + unfold not_tilde in Hc; destruct (Ascii.eqb c "~"%char); [discriminate|reflexivity].
Qed.

(** [json_path_unescape] returns a component without a tilde unchanged. *)
Theorem json_path_unescape_tilde_free : forall s,
  forallb not_tilde (list_ascii_of_string s) = true -> json_path_unescape s = Ok s.
Proof. intros s Hs; apply json_path_unescape_go_free; [exact Hs|reflexivity]. Qed.

(** Once [json_path_unescape] has met a tilde, it reads every following
    character as an escape: the component succeeds only when all of them
    are [0] or [1], each read as [~] or [/], and otherwise fails on the
    first other character. *)
Theorem json_path_unescape_after_tilde : forall p r,
  forallb not_tilde (list_ascii_of_string p) = true ->
  (forallb is01 (list_ascii_of_string r) = true ->
     json_path_unescape (p ++ String "~"%char r) = Ok (p ++ String "~"%char (decode01 r))) /\
  (forallb is01 (list_ascii_of_string r) = false ->
     exists c, In c (list_ascii_of_string r) /\ is01 c = false /\
       json_path_unescape (p ++ String "~"%char r)
       = Err (GenError ("Invalid escape found: ~" ++ char_str c ++ " "))).
Proof.
  intros p r Hp; unfold json_path_unescape.
  rewrite (json_path_unescape_go_prefix p None r Hp eq_refl).
  destruct (json_path_unescape_go_tilde r) as [H1 H2]; split.
  - intros H; rewrite (H1 H); reflexivity.
  - intros H; destruct (H2 H) as [c [Hin [Hb He]]].
    exists c; split; [exact Hin|split; [exact Hb|rewrite He; reflexivity]].
Qed.

Lemma json_path_unescape_tilde_free_witness :
  json_path_unescape "components" = Ok "components".
Proof. apply json_path_unescape_tilde_free; reflexivity. Defined.

Lemma json_path_unescape_after_tilde_witness :
  json_path_unescape ("a" ++ String "~"%char "10") = Ok ("a" ++ String "~"%char (decode01 "10")).
Proof. apply (proj1 (json_path_unescape_after_tilde "a" "10" eq_refl)); reflexivity. Defined.

Lemma split_on_app_sep : forall c s1 s2,
  split_on c (s1 ++ String c s2) = (split_on c s1 ++ split_on c s2)%list.
Proof.
  intros c s1 s2; induction s1 as [|d s1 IH]; cbn.
  - rewrite Ascii.eqb_refl; reflexivity.
  - rewrite IH; destruct (Ascii.eqb c d); [reflexivity|].
    pose proof (split_on_not_nil c s1) as Hne.
    destruct (split_on c s1); [congruence|reflexivity].
Qed.

Lemma join_split_on : forall c s, join (char_str c) (split_on c s) = s.
Proof.
  intros c s; induction s as [|d s IH]; [reflexivity|]; cbn [split_on].
  pose proof (split_on_not_nil c s) as Hne.
  destruct (Ascii.eqb c d) eqn:E.
  - apply Ascii.eqb_eq in E; subst d.
    destruct (split_on c s) as [|w ws]; [congruence|].
    cbn [join]; rewrite <- IH; reflexivity.
  - destruct (split_on c s) as [|w ws]; [congruence|].
    destruct ws as [|w' ws]; cbn [join] in *; rewrite <- IH; reflexivity.
Qed.

Lemma walk_app : forall a b o,
  walk o (a ++ b) = (o' <- walk o a ;; walk o' b).
Proof.
  induction a as [|c a IH]; intros b o; [reflexivity|]; cbn [app walk].
  destruct (json_path_unescape c) as [c'|e]; [|reflexivity]; cbn.
  destruct (index_json o c') as [o'|e]; [|reflexivity]; cbn.
  apply IH.
Qed.

(* The model's equation for an extended pointer.  It equates errors only
   because the model's error values keep the fixed prefixes of the
   messages, not the pointer the real messages name. *)
Lemma resolveReference_app_bind : forall doc p q,
  resolveReference doc (p ++ String "/"%char q)
  = (o <- resolveReference doc p ;; resolveReference o (String "#"%char (String "/"%char q))).
Proof.
  intros doc p q; unfold resolveReference.
  rewrite split_on_app_sep.
  change (split_on "/"%char (String "#"%char (String "/"%char q)))
    with ("#" :: split_on "/"%char q).
  pose proof (split_on_not_nil "/"%char p) as Hne.
  destruct (split_on "/"%char p) as [|c0 rest]; [congruence|].
  cbn [app]; destruct (String.eqb c0 "#"); cbn [negb]; [|reflexivity].
  apply walk_app.
Qed.

(** A pointer extended by [/q] resolves to [v] exactly when the shorter
    pointer resolves to some [o] and [#/q] resolves to [v] inside [o]; in
    particular, when the shorter pointer fails the longer one fails too. *)
Theorem resolveReference_extend : forall doc p q v,
  resolveReference doc (p ++ String "/"%char q) = Ok v <->
  exists o, resolveReference doc p = Ok o /\
            resolveReference o (String "#"%char (String "/"%char q)) = Ok v.
Proof.
  intros doc p q v; rewrite resolveReference_app_bind.
  destruct (resolveReference doc p) as [o|e]; cbn.
  - split; [intros H; exists o; split; [reflexivity|exact H]|].
    intros [o' [H1 H2]]; injection H1 as <-; exact H2.
  - split; [discriminate|intros [o' [H1 _]]; discriminate].
Qed.

(** [resolveReference] resolves only pointers into the current document:
    a pointer that resolves is [#] itself or starts with [#/]. *)
Theorem resolveReference_same_document : forall doc p o,
  resolveReference doc p = Ok o ->
  p = "#" \/ exists q, p = String "#"%char (String "/"%char q).
Proof.
  intros doc p o H; unfold resolveReference in H.
  rewrite <- (join_split_on "/"%char p).
  pose proof (split_on_not_nil "/"%char p) as Hne.
  destruct (split_on "/"%char p) as [|c0 rest]; [congruence|].
  destruct (String.eqb c0 "#") eqn:E; cbn [negb] in H; [|discriminate].
  apply String.eqb_eq in E; subst c0.
  destruct rest as [|w ws]; [left; reflexivity|right].
  eexists; reflexivity.
Qed.

Lemma digit_cases : forall c, is_digit c = true ->
  c = "0"%char \/ c = "1"%char \/ c = "2"%char \/ c = "3"%char \/ c = "4"%char \/
  c = "5"%char \/ c = "6"%char \/ c = "7"%char \/ c = "8"%char \/ c = "9"%char.
Proof.
  intros [[] [] [] [] [] [] [] []] H; vm_compute in H; try discriminate;
    repeat (solve [left; reflexivity] || right); reflexivity.
Qed.

Ltac digit_case H :=
  let c := match type of H with is_digit ?c = true => c end in
  destruct (digit_cases c H) as [->|[->|[->|[->|[->|[->|[->|[->|[->| ->]]]]]]]]].

Lemma digit_not_ws : forall c, is_digit c = true -> is_ws c = false.
Proof. intros c H; digit_case H; reflexivity. Qed.

Lemma digit_not_tilde : forall c, is_digit c = true -> not_tilde c = true.
Proof. intros c H; digit_case H; reflexivity. Qed.

Lemma digit_val_digit : forall c, is_digit c = true ->
  digit_val 10 c = Some (N.of_nat (nat_of_ascii c) - 48)%N.
Proof. intros c H; digit_case H; reflexivity. Qed.

Lemma forallb_rev_eq : forall A (f : A -> bool) l, forallb f (rev l) = forallb f l.
Proof.
  intros A f l; induction l as [|a l IH]; [reflexivity|]; cbn.
  rewrite forallb_app, IH; cbn; rewrite andb_true_r, andb_comm; reflexivity.
Qed.

Lemma drop_ws_digits : forall l, forallb is_digit l = true -> drop_ws l = l.
Proof.
  intros [|c l] H; [reflexivity|]; cbn in H |- *.
  apply andb_prop in H as [Hc _]; rewrite (digit_not_ws c Hc); reflexivity.
Qed.

Lemma trim_digits : forall l, forallb is_digit l = true -> trim l = l.
Proof.
  intros l H; unfold trim.
  rewrite (drop_ws_digits l H), drop_ws_digits, rev_involutive; [reflexivity|].
  rewrite forallb_rev_eq; exact H.
Qed.

Lemma take_digits_all : forall l acc cnt, forallb is_digit l = true ->
  take_digits 10 acc cnt l
  = (fold_left (fun acc c => (acc * 10 + (N.of_nat (nat_of_ascii c) - 48))%N) l acc,
     (cnt + length l)%nat, []).
Proof.
  induction l as [|c l IH]; intros acc cnt H; cbn in H |- *; [rewrite Nat.add_0_r; reflexivity|].
  apply andb_prop in H as [Hc Hl].
  rewrite (digit_val_digit c Hc), (IH _ _ Hl), Nat.add_succ_r; reflexivity.
Qed.

Lemma unsigned_decimal_digits : forall l, l <> [] -> forallb is_digit l = true ->
  unsigned_decimal false l = Index (digits_value l).
Proof.
  intros l Hne H; unfold unsigned_decimal.
  assert (Hinf : String.eqb (string_of_list_ascii l) "Infinity" = false).
  { destruct l as [|c l]; [congruence|]; cbn in H; apply andb_prop in H as [Hc _].
    digit_case Hc; reflexivity. }
  rewrite Hinf, (take_digits_all l 0 0 H); cbn [Nat.add].
  destruct (Nat.eqb (length l + 0) 0) eqn:E.
  { destruct l; [congruence|discriminate]. }
  unfold decimal_value, digits_value; cbn.
  destruct (N.eqb _ 0%N) eqn:Ez; [apply N.eqb_eq in Ez; rewrite Ez; reflexivity|].
  rewrite N.mul_1_r; reflexivity.
Qed.

Lemma js_Number_digits : forall c, list_ascii_of_string c <> [] ->
  forallb is_digit (list_ascii_of_string c) = true ->
  js_Number c = Index (digits_value (list_ascii_of_string c)).
Proof.
  intros c Hne H; unfold js_Number; rewrite (trim_digits _ H).
  rewrite <- (unsigned_decimal_digits _ Hne H).
  destruct (list_ascii_of_string c) as [|c0 r]; [congruence|].
  cbn in H; apply andb_prop in H as [H0 Hr].
  destruct r as [|c1 r].
  - digit_case H0; reflexivity.
  - cbn in Hr; apply andb_prop in Hr as [H1 _].
    digit_case H0; try reflexivity; digit_case H1; reflexivity.
Qed.

(** A pointer component made of decimal digits is always read as an array
    index, leading zeros included: it selects the element at its value in
    an array (failing past the end) and fails on every value that is not
    an array, so an object key such as [200] cannot be reached. *)
Theorem walk_digit_component : forall o c rest,
  list_ascii_of_string c <> [] ->
  forallb is_digit (list_ascii_of_string c) = true ->
  walk o (c :: rest)
  = match o with
    | JArr l =>
        match nth_error l (N.to_nat (digits_value (list_ascii_of_string c))) with
        | Some o' => walk o' rest
        | None => Err (GenError "Failed finding object")
        end
    | _ => Err (GenError "Attempted to index a non-array")
    end.
Proof.
  intros o c rest Hne H.
  assert (Ht : forallb not_tilde (list_ascii_of_string c) = true).
  { apply forallb_forall; intros x Hx.
    apply digit_not_tilde; exact (proj1 (forallb_forall _ _) H x Hx). }
  cbn [walk]; unfold json_path_unescape; rewrite (json_path_unescape_go_free c None Ht eq_refl), bind_ok.
  unfold index_json; rewrite (js_Number_digits c Hne H).
  destruct o as [| | | |l|]; try reflexivity.
  destruct (nth_error l _); reflexivity.
Qed.

Lemma walk_digit_component_witness :
  walk (JArr [JStr "a"; JStr "b"]) ["01"] = Ok (JStr "b") /\
  resolveReference status_doc "#/responses/200" = Err (GenError "Attempted to index a non-array").
Proof.
  split.
  - rewrite (walk_digit_component (JArr [JStr "a"; JStr "b"]) "01" []);
      [reflexivity | discriminate | reflexivity].
  - reflexivity.
Defined.

Lemma resolveReference_same_document_witness :
  resolveReference status_doc "#/servers" = Ok (JArr [JObj [("url", JStr "a")]; JObj [("url", JStr "b")]]) /\
  ("#/servers" = "#" \/ exists q, "#/servers" = String "#"%char (String "/"%char q)).
Proof.
  split; [reflexivity|].
  exact (resolveReference_same_document status_doc "#/servers" _ eq_refl).
Defined.

(** ** escape.ts and formatters/util.ts: [ts_string] *)

Lemma read_literal_body_escape : forall d s rest,
  d <> "\"%char ->
  read_literal_body d (escape d s ++ String d rest) = Some (s, rest).
Proof.
  intros d s rest Hd; induction s as [|c s IH]; cbn [escape String.append].
  - cbn; destruct (Ascii.eqb d "\"%char) eqn:E; [apply Ascii.eqb_eq in E; congruence|].
    rewrite Ascii.eqb_refl; reflexivity.
  - destruct (Ascii.eqb c d || Ascii.eqb c "\"%char) eqn:E.
    + cbn [String.append read_literal_body Ascii.eqb Bool.eqb andb].
      cbn [String.append] in IH; rewrite IH; reflexivity.
    + apply orb_false_iff in E as [E1 E2].
      cbn [String.append read_literal_body]; rewrite E2, E1, IH; reflexivity.
Qed.

(** A literal made by [ts_string] with a delimiter other than the
    backslash, followed by any text, reads back (each escaping backslash
    dropped) to exactly the original string, and it ends at its closing
    delimiter. *)
Theorem ts_string_read_back : forall d s rest,
  d <> "\"%char ->
  read_literal d (ts_string_d s d ++ rest) = Some (s, rest).
Proof.
  intros d s rest Hd; unfold ts_string_d, char_str.
  cbn [String.append read_literal]; rewrite Ascii.eqb_refl.
  rewrite string_app_assoc; cbn [String.append].
  apply read_literal_body_escape; exact Hd.
Qed.

Lemma ts_string_read_back_witness :
  read_literal "`"%char (ts_string_d "With ` and \" "`"%char ++ " + x") = Some ("With ` and \", " + x").
Proof. apply ts_string_read_back; discriminate. Defined.

(** ** ts-identifier.ts *)

Lemma replace_hyphens_props : forall s,
  forallb not_hyphen (list_ascii_of_string (replace_hyphens s)) = true /\
  String.length (replace_hyphens s) = String.length s /\
  (forallb not_hyphen (list_ascii_of_string s) = true -> replace_hyphens s = s).
Proof.
  induction s as [|c s [IH1 [IH2 IH3]]]; [repeat split|].
  cbn [replace_hyphens list_ascii_of_string String.length].
  change (forallb not_hyphen (?x :: ?l)) with (not_hyphen x && forallb not_hyphen l).
  assert (Hc : not_hyphen c = negb (Ascii.eqb c "-"%char)) by reflexivity.
  assert (Hu : not_hyphen "_"%char = true) by reflexivity.
  rewrite Hc.
  destruct (Ascii.eqb c "-"%char) eqn:E; try rewrite Hu; try rewrite Hc; repeat split.
  - rewrite IH1; reflexivity.
  - rewrite IH2; reflexivity.
  - discriminate.
  - rewrite IH1; reflexivity.
  - rewrite IH2; reflexivity.
  - intros H; apply andb_prop in H as [_ H]; rewrite (IH3 H); reflexivity.
Qed.

(** [to_ts_identifier] leaves no hyphen, keeps the length of its input
    (each hyphen becomes one underscore), and returns a hyphen-free string
    unchanged, so applying it twice is applying it once. *)
Theorem to_ts_identifier_props : forall s,
  forallb not_hyphen (list_ascii_of_string (to_ts_identifier s)) = true /\
  String.length (to_ts_identifier s) = String.length s /\
  (forallb not_hyphen (list_ascii_of_string s) = true -> to_ts_identifier s = s) /\
  to_ts_identifier (to_ts_identifier s) = to_ts_identifier s.
Proof.
  intros s; rewrite !to_ts_identifier_replace_hyphens.
  destruct (replace_hyphens_props s) as [H1 [H2 H3]].
  destruct (replace_hyphens_props (replace_hyphens s)) as [_ [_ H3']].
  repeat split; auto.
Qed.

(** ** formatters/util.ts: [parse_uri_path] *)

Lemma uri_template_scan_no_brace : forall fuel f l,
  forallb not_open_brace l = true ->
  uri_template_scan fuel f l = (string_of_list_ascii l, []).
Proof.
  induction fuel as [|fuel IH]; intros f l H; [reflexivity|].
  destruct l as [|c l]; [reflexivity|].
  cbn in H; apply andb_prop in H as [Hc H].
  cbn [uri_template_scan span_at].
  unfold not_open_brace in Hc; destruct (Ascii.eqb c "{"%char); [discriminate|].
  rewrite (IH f l H); reflexivity.
Qed.

(** A path without an opening brace has no parameter: [parse_uri_path]
    returns the path itself as a backtick literal and an empty list. *)
Theorem parse_uri_path_no_brace : forall path f,
  forallb not_open_brace (list_ascii_of_string path) = true ->
  parse_uri_path path f = (ts_string_d path "`"%char, []).
Proof.
  intros path f H; rewrite parse_uri_path_scan, uri_template_scan_no_brace by exact H.
  rewrite string_of_list_ascii_of_string; reflexivity.
Qed.

Lemma parse_uri_path_no_brace_witness :
  parse_uri_path "/healthz" (fun x => x) = (ts_string_d "/healthz" "`"%char, []).
Proof. apply parse_uri_path_no_brace; reflexivity. Defined.

Lemma take_while_not_close_free : forall l,
  forallb not_close_brace (take_while_not_close l) = true.
Proof.
  induction l as [|c l IH]; [reflexivity|]; cbn [take_while_not_close].
  destruct (Ascii.eqb c "}"%char) eqn:E; [reflexivity|].
  cbn [forallb]; unfold not_close_brace at 1; rewrite E; exact IH.
Qed.

Lemma uri_template_scan_params : forall fuel f g l,
  Forall (fun p => p <> EmptyString /\
                   forallb not_close_brace (list_ascii_of_string p) = true)
    (snd (uri_template_scan fuel f l)) /\
  snd (uri_template_scan fuel g l) = snd (uri_template_scan fuel f l).
Proof.
  induction fuel as [|fuel IH]; intros f g l; [split; [constructor|reflexivity]|].
  destruct l as [|c l]; [split; [constructor|reflexivity]|].
  cbn [uri_template_scan].
  destruct (span_at (c :: l)) as [[content r]|] eqn:Hs.
  - destruct (IH f g r) as [H1 H2]; cbn [snd]; rewrite H2; split; [|reflexivity].
    constructor; [|exact H1].
    cbn [span_at] in Hs; destruct (Ascii.eqb c "{"%char); [|discriminate].
    pose proof (take_while_not_close_free l) as Hf.
    destruct (take_while_not_close l) as [|x xs]; [discriminate|].
    destruct (drop_while_not_close l); [discriminate|].
    injection Hs as <- _.
    rewrite list_ascii_of_string_of_list_ascii; split; [discriminate|exact Hf].
  - destruct (IH f g l) as [H1 H2]; cbn [snd]; rewrite H2; split; [exact H1|reflexivity].
Qed.

(** Every parameter name [parse_uri_path] reports is non-empty and has no
    closing brace, and the list of names does not depend on the
    replacement function. *)
Theorem parse_uri_path_parameter_names : forall path f g,
  Forall (fun p => p <> EmptyString /\
                   forallb not_close_brace (list_ascii_of_string p) = true)
    (snd (parse_uri_path path f)) /\
  snd (parse_uri_path path g) = snd (parse_uri_path path f).
Proof.
  intros path f g; rewrite !parse_uri_path_scan; cbn [snd].
  apply uri_template_scan_params.
Qed.

Lemma take_drop_not_close : forall l,
  (take_while_not_close l ++ drop_while_not_close l)%list = l.
Proof.
  induction l as [|c l IH]; [reflexivity|]; cbn [take_while_not_close drop_while_not_close].
  destruct (Ascii.eqb c "}"%char); [reflexivity|]; cbn; rewrite IH; reflexivity.
Qed.

Lemma drop_while_not_close_head : forall l c r,
  drop_while_not_close l = c :: r -> c = "}"%char.
Proof.
  induction l as [|x l IH]; intros c r H; [discriminate|]; cbn [drop_while_not_close] in H.
  destruct (Ascii.eqb x "}"%char) eqn:E; [|exact (IH _ _ H)].
  injection H as <- _; apply Ascii.eqb_eq; exact E.
Qed.

Lemma span_at_shape : forall l content r,
  span_at l = Some (content, r) -> l = ("{"%char :: content ++ "}"%char :: r)%list.
Proof.
  intros [|c rest] content r H; [discriminate|]; cbn [span_at] in H.
  destruct (Ascii.eqb c "{"%char) eqn:Ec; [|discriminate].
  apply Ascii.eqb_eq in Ec as ->.
  pose proof (take_drop_not_close rest) as Htd.
  pose proof (drop_while_not_close_head rest) as Hh.
  destruct (take_while_not_close rest) as [|x xs]; [discriminate|].
  destruct (drop_while_not_close rest) as [|d r']; [discriminate|].
  injection H as <- <-; rewrite (Hh d r' eq_refl) in Htd; rewrite Htd; reflexivity.
Qed.

Lemma uri_template_scan_braces : forall fuel l,
  fst (uri_template_scan fuel (fun n => "{" ++ n ++ "}") l) = string_of_list_ascii l.
Proof.
  induction fuel as [|fuel IH]; intros l; [reflexivity|].
  destruct l as [|c l]; [reflexivity|]; cbn [uri_template_scan].
  destruct (span_at (c :: l)) as [[content r]|] eqn:Hs; cbn [fst].
  - rewrite IH, (span_at_shape _ _ _ Hs).
    cbn [string_of_list_ascii]; rewrite string_of_list_ascii_app; cbn.
    rewrite string_app_assoc; reflexivity.
  - rewrite IH; reflexivity.
Qed.

(** With the replacement that puts each parameter name back between
    braces, [parse_uri_path] gives back the path itself as the backtick
    template literal: each replaced span is exactly an opening brace, the
    name and the closing brace. *)
Theorem parse_uri_path_braces_identity : forall path,
  fst (parse_uri_path path (fun n => "{" ++ n ++ "}")) = ts_string_d path "`"%char.
Proof.
  intros path; rewrite parse_uri_path_scan; cbn [fst].
  rewrite uri_template_scan_braces, string_of_list_ascii_of_string; reflexivity.
Qed.

(** ** json-schema.ts: [merge_schemas] *)

Lemma assoc_app : forall A k (l1 l2 : list (string * A)),
  assoc k (l1 ++ l2)%list = match assoc k l1 with Some v => Some v | None => assoc k l2 end.
Proof.
  intros A k l1 l2; induction l1 as [|[k' v] l1 IH]; [reflexivity|]; cbn.
  destruct (String.eqb k k'); [reflexivity|exact IH].
Qed.

Lemma assoc_assoc_set : forall k n v l,
  assoc k (assoc_set n v l) = if String.eqb k n then Some v else assoc k l.
Proof.
  intros k n v l; induction l as [|[k' v'] l IH]; cbn.
  - reflexivity.
  - destruct (String.eqb n k') eqn:E; cbn.
    + apply String.eqb_eq in E; subst k'; destruct (String.eqb k n); reflexivity.
    + rewrite IH; destruct (String.eqb k k') eqn:E1; [|reflexivity].
      apply String.eqb_eq in E1; subst k'.
      destruct (String.eqb k n) eqn:E2; [|reflexivity].
      apply String.eqb_eq in E2; subst n; rewrite String.eqb_refl in E; discriminate.
Qed.

Lemma assoc_props_assign : forall k n v acc,
  k <> "__proto__" ->
  assoc k (fst (props_assign n v acc))
  = if String.eqb k n then Some v else assoc k (fst acc).
Proof.
  intros k n v [own chain] Hk; unfold props_assign.
  assert (Hs : forall l, assoc k (assoc_set n v l) = if String.eqb k n then Some v else assoc k l)
    by (intros; apply assoc_assoc_set).
  destruct (String.eqb_spec n "__proto__") as [->|Hn]; [|cbn [fst]; apply Hs].
  destruct (String.eqb_spec k "__proto__") as [|_]; [contradiction|].
  destruct (assoc "__proto__" own), chain; cbn [fst]; rewrite ?Hs;
    try (destruct (String.eqb k "__proto__"); reflexivity);
    destruct v; reflexivity.
Qed.

Lemma assoc_fold_props_assign : forall k entries acc,
  k <> "__proto__" ->
  assoc k (fst (fold_left (fun acc '(name, spec) => props_assign name spec acc) entries acc))
  = match assoc k (rev entries) with Some v => Some v | None => assoc k (fst acc) end.
Proof.
  intros k entries; induction entries as [|[n v] entries IH]; intros acc Hk; [reflexivity|].
  cbn [fold_left rev]; rewrite (IH _ Hk), assoc_app, (assoc_props_assign _ _ _ _ Hk); cbn.
  destruct (assoc k (rev entries)); [reflexivity|].
  destruct (String.eqb k n); reflexivity.
Qed.

Lemma json_eqb_jstr : forall a y, json_eqb (JStr a) y = true <-> y = JStr a.
Proof.
  intros a [| | |y| |]; cbn; split; intros H; try discriminate.
  - apply String.eqb_eq in H; subst; reflexivity.
  - injection H as ->; apply String.eqb_refl.
Qed.

Lemma fold_set_add_strings : forall es acc,
  forallb is_jstr es = true -> NoDup acc ->
  NoDup (fold_left (fun acc r => set_add r acc) es acc) /\
  (forall r, In r (fold_left (fun acc r => set_add r acc) es acc) <-> In r acc \/ In r es).
Proof.
  intros es; induction es as [|e es IH]; intros acc Hs Hn.
  - split; [exact Hn|]; intros r; cbn; tauto.
  - cbn [forallb] in Hs; apply andb_prop in Hs as [He Hs].
    destruct e as [| | |a| |]; try discriminate.
    cbn [fold_left].
    destruct (existsb (json_eqb (JStr a)) acc) eqn:Ex.
    + assert (Hadd : set_add (JStr a) acc = acc) by (unfold set_add; rewrite Ex; reflexivity).
      rewrite Hadd.
      apply existsb_exists in Ex as [y [Hy Hy']]; apply json_eqb_jstr in Hy'; subst y.
      destruct (IH acc Hs Hn) as [H1 H2]; split; [exact H1|].
      intros r; rewrite H2; cbn; split; [tauto|].
      intros [H|[<-|H]]; tauto.
    + assert (Hadd : set_add (JStr a) acc = (acc ++ [JStr a])%list)
        by (unfold set_add; rewrite Ex; reflexivity).
      rewrite Hadd.
      assert (Hnot : ~ In (JStr a) acc).
      { intros Hin; assert (existsb (json_eqb (JStr a)) acc = true) as C; [|congruence].
        apply existsb_exists; exists (JStr a); split; [exact Hin|apply json_eqb_jstr; reflexivity]. }
      assert (Hn' : NoDup (acc ++ [JStr a])%list).
      { apply NoDup_app; [exact Hn|constructor; [intros []|constructor]|].
        intros x Hx [<-|[]]; exact (Hnot Hx). }
      destruct (IH _ Hs Hn') as [H1 H2]; split; [exact H1|].
      intros r; rewrite H2, in_app_iff; cbn; tauto.
Qed.

Lemma merge_schemas_go_ok : forall schemas props req,
  forallb merge_part_ok schemas = true ->
  merge_schemas_go schemas props req
  = Ok (fold_left (fun acc '(name, spec) => props_assign name spec acc)
          (flat_map props_of schemas) props,
        fold_left (fun acc r => set_add r acc) (flat_map reqs_of schemas) req).
Proof.
  intros schemas; induction schemas as [|s schemas IH]; intros props req H; [reflexivity|].
  cbn [forallb] in H; apply andb_prop in H as [Hs H].
  destruct s as [| | | | |l]; try discriminate.
  cbn [merge_schemas_go flat_map]; rewrite !fold_left_app.
  unfold merge_part_ok in Hs; apply andb_prop in Hs as [Hp Hr].
  unfold props_of, reqs_of; rewrite !get_obj; cbn [js_in].
  rewrite bind_ok.
  destruct (assoc "properties" l) as [[| | | | |ps]|]; try discriminate;
    rewrite ?bind_ok; cbn [js_entries]; rewrite ?bind_ok;
  (destruct (assoc "required" l) as [[| | | |rs|]|]; try discriminate;
    cbn [js_iter]; rewrite ?bind_ok; apply IH; exact H).
Qed.

(** On parts that are objects with an object [properties] and an array of
    strings [required], [merge_schemas] succeeds with a schema of type
    [object] in which each property other than [__proto__] is bound to the
    value of the last assignment [properties[name] = spec] made while
    iterating over the parts and their properties in order. *)
Theorem merge_schemas_last_wins : forall schemas,
  forallb merge_part_ok schemas = true ->
  exists m, merge_schemas schemas = Ok m /\
    get "type" m = Some (JStr "object") /\
    forall name, name <> "__proto__" ->
      assoc name (props_of m) = assoc name (rev (flat_map props_of schemas)).
Proof.
  intros schemas H; unfold merge_schemas; rewrite merge_schemas_go_ok by exact H.
  rewrite bind_ok.
  pose proof (fun name => assoc_fold_props_assign name (flat_map props_of schemas)
                            ([], ProtoSetter)) as Hf.
  match goal with |- context [fold_left ?f (flat_map props_of schemas) ([], ProtoSetter)] =>
    change (fold_left (fun acc '(name, spec) => props_assign name spec acc)
              (flat_map props_of schemas) ([], ProtoSetter)) with
           (fold_left f (flat_map props_of schemas) ([], ProtoSetter)) in Hf;
    destruct (fold_left f (flat_map props_of schemas) ([], ProtoSetter)) as [ps chain]
  end.
  eexists; split; [reflexivity|]; split; [reflexivity|].
  intros name Hname.
  set (rs := fold_left _ (flat_map reqs_of schemas) []).
  transitivity (assoc name ps).
  - unfold props_of; cbn [get]; destruct ps, rs; reflexivity.
  - cbn [fst] in Hf; rewrite (Hf name Hname); destruct (assoc name _); reflexivity.
Qed.

Lemma merge_schemas_last_wins_witness :
  forallb merge_part_ok
    [JObj [("properties", JObj [("id", JStr "a"); ("name", JStr "b")])];
     JObj [("properties", JObj [("id", JStr "c")])]] = true /\
  exists m, merge_schemas
    [JObj [("properties", JObj [("id", JStr "a"); ("name", JStr "b")])];
     JObj [("properties", JObj [("id", JStr "c")])]] = Ok m /\
    get "type" m = Some (JStr "object") /\
    forall name, name <> "__proto__" ->
      assoc name (props_of m) = assoc name (rev (flat_map props_of
        [JObj [("properties", JObj [("id", JStr "a"); ("name", JStr "b")])];
         JObj [("properties", JObj [("id", JStr "c")])]])).
Proof. split; [reflexivity|apply merge_schemas_last_wins; reflexivity]. Defined.

(** On the same parts, the [required] list of the merged schema names each
    required property of any part, names nothing else, and names each one
    once. *)
Theorem merge_schemas_required_union : forall schemas,
  forallb merge_part_ok schemas = true ->
  exists m, merge_schemas schemas = Ok m /\
    NoDup (reqs_of m) /\
    forall r, In r (reqs_of m) <-> In r (flat_map reqs_of schemas).
Proof.
  intros schemas H; unfold merge_schemas; rewrite merge_schemas_go_ok by exact H.
  rewrite bind_ok.
  match goal with |- context [fold_left ?f (flat_map props_of schemas) ([], ProtoSetter)] =>
    destruct (fold_left f (flat_map props_of schemas) ([], ProtoSetter)) as [ps chain]
  end.
  eexists; split; [reflexivity|].
  assert (Hs : forallb is_jstr (flat_map reqs_of schemas) = true).
  { clear -H; induction schemas as [|s schemas IH]; [reflexivity|].
    cbn [forallb] in H; apply andb_prop in H as [Hs H].
    cbn [flat_map]; rewrite forallb_app, (IH H), andb_true_r.
    destruct s as [| | | | |l]; try discriminate; unfold reqs_of; rewrite get_obj.
    unfold merge_part_ok in Hs; apply andb_prop in Hs as [_ Hs].
    destruct (assoc "required" l) as [[| | | |rs|]|]; try discriminate; [exact Hs|reflexivity]. }
  destruct (fold_set_add_strings _ [] Hs (NoDup_nil _)) as [Hn Hi].
  set (rs := fold_left _ (flat_map reqs_of schemas) []) in *.
  assert (Hr : reqs_of (JObj ([("type", JStr "object")] ++
      match ps with [] => [] | _ => [("properties", JObj ps)] end ++
      match rs with [] => [] | _ => [("required", JArr rs)] end)) = rs).
  { unfold reqs_of; cbn [get]; destruct ps, rs; reflexivity. }
  rewrite Hr; split; [exact Hn|]; intros r; rewrite Hi; cbn; tauto.
Qed.

Lemma merge_schemas_required_union_witness :
  forallb merge_part_ok
    [JObj [("required", JArr [JStr "id"; JStr "name"])];
     JObj [("required", JArr [JStr "name"; JStr "kind"])]] = true /\
  exists m, merge_schemas
    [JObj [("required", JArr [JStr "id"; JStr "name"])];
     JObj [("required", JArr [JStr "name"; JStr "kind"])]] = Ok m /\
    NoDup (reqs_of m) /\
    forall r, In r (reqs_of m) <-> In r (flat_map reqs_of
      [JObj [("required", JArr [JStr "id"; JStr "name"])];
       JObj [("required", JArr [JStr "name"; JStr "kind"])]]).
Proof. split; [reflexivity|apply merge_schemas_required_union; reflexivity]. Defined.

(** ** json-schema.ts: [expand_vars] *)

Lemma take_drop_word : forall l, (take_word l ++ drop_word l)%list = l.
Proof.
  induction l as [|c l IH]; [reflexivity|]; cbn.
  destruct (is_word_char c); [cbn; rewrite IH|]; reflexivity.
Qed.

Lemma var_at_some : forall l name r,
  var_at l = Some (name, r) ->
  l = ("$"%char :: "{"%char :: name ++ "}"%char :: r)%list.
Proof.
  intros l name r H.
  destruct l as [|c1 l]; [discriminate|].
  destruct c1 as [[] [] [] [] [] [] [] []]; try discriminate.
  destruct l as [|c2 rest]; [discriminate|].
  destruct c2 as [[] [] [] [] [] [] [] []]; try discriminate.
  cbn [var_at] in H.
  pose proof (take_drop_word rest) as Ht.
  destruct (take_word rest) as [|w ws]; [discriminate|].
  destruct (drop_word rest) as [|d r'] eqn:Ed; [discriminate|].
  destruct d as [[] [] [] [] [] [] [] []]; try discriminate.
  injection H as <- <-; rewrite <- Ht; reflexivity.
Qed.

Lemma expand_scan_self : forall fuel l,
  length l <= fuel -> expand_scan self_env fuel l = Ok (string_of_list_ascii l).
Proof.
  induction fuel as [|fuel IH]; intros l Hl; [reflexivity|].
  destruct l as [|c l']; [reflexivity|].
  cbn [expand_scan].
  destruct (var_at (c :: l')) as [[name r]|] eqn:Hv.
  - pose proof (var_at_some _ _ _ Hv) as Hl'.
    unfold self_env; rewrite IH.
    + rewrite bind_ok, Hl'; cbn [string_of_list_ascii String.append].
      rewrite string_of_list_ascii_app; cbn [string_of_list_ascii].
      rewrite string_app_assoc; reflexivity.
    + rewrite Hl' in Hl; cbn in Hl; rewrite length_app in Hl; cbn in Hl; lia.
  - rewrite IH by (cbn in Hl; lia); rewrite bind_ok; reflexivity.
Qed.

(** Every stretch of the source outside a [${name}] match is copied
    verbatim and each match is replaced by [process.env[name]]: with an
    environment in which each name holds its own reference [${name}],
    [expand_vars] returns its input unchanged. *)
Theorem expand_vars_self_env : forall source,
  expand_vars self_env source = Ok source.
Proof.
  intros source; unfold expand_vars.
  rewrite expand_scan_self by (rewrite length_list_ascii_of_string; lia).
  rewrite string_of_list_ascii_of_string; reflexivity.
Qed.

Lemma expand_scan_no_dollar : forall env fuel l,
  forallb not_dollar l = true -> expand_scan env fuel l = Ok (string_of_list_ascii l).
Proof.
  intros env; induction fuel as [|fuel IH]; intros l H; [reflexivity|].
  destruct l as [|c l']; [reflexivity|].
  cbn [forallb] in H; apply andb_prop in H as [Hc H].
  cbn [expand_scan].
  assert (Hv : var_at (c :: l') = None).
  { unfold not_dollar in Hc; destruct (Ascii.eqb_spec c "$"%char) as [->|N]; [discriminate|].
    unfold var_at; destruct c as [[] [] [] [] [] [] [] []]; try reflexivity; congruence. }
  rewrite Hv, IH by exact H; rewrite bind_ok; reflexivity.
Qed.

(** A source without a dollar sign contains no variable reference and is
    returned unchanged, whatever the environment holds. *)
Theorem expand_vars_no_dollar : forall env source,
  forallb not_dollar (list_ascii_of_string source) = true ->
  expand_vars env source = Ok source.
Proof.
  intros env source H; unfold expand_vars.
  rewrite expand_scan_no_dollar by exact H.
  rewrite string_of_list_ascii_of_string; reflexivity.
Qed.

Lemma expand_vars_no_dollar_witness :
  expand_vars (fun _ => None) "out/api.ts" = Ok "out/api.ts".
Proof. apply expand_vars_no_dollar; reflexivity. Defined.

Lemma expand_scan_err : forall env fuel l e,
  expand_scan env fuel l = Err e ->
  exists name, env name = None /\
    e = GenError ("Referenced environment variable '" ++ name ++ "', but it's not defined").
Proof.
  intros env; induction fuel as [|fuel IH]; intros l e H; [discriminate|].
  destruct l as [|c l']; [discriminate|].
  cbn [expand_scan] in H.
  destruct (var_at (c :: l')) as [[name r]|].
  - destruct (env (string_of_list_ascii name)) eqn:Ee.
    + destruct (expand_scan env fuel r) eqn:Er; [discriminate|].
      injection H as <-; exact (IH _ _ Er).
    + injection H as <-; exists (string_of_list_ascii name); split; [exact Ee|reflexivity].
  - destruct (expand_scan env fuel l') eqn:Er; [discriminate|].
    injection H as <-; exact (IH _ _ Er).
Qed.

(** [expand_vars] fails only by naming a variable that the environment
    leaves undefined. *)
Theorem expand_vars_error : forall env source e,
  expand_vars env source = Err e ->
  exists name, env name = None /\
    e = GenError ("Referenced environment variable '" ++ name ++ "', but it's not defined").
Proof. intros env source e H; exact (expand_scan_err _ _ _ _ H). Qed.

Lemma expand_vars_error_witness :
  exists name, (fun n => if String.eqb n "HOME" then Some "/root" else None) name = None /\
    GenError "Referenced environment variable 'OUT_DIR', but it's not defined"
    = GenError ("Referenced environment variable '" ++ name ++ "', but it's not defined").
Proof.
  apply (expand_vars_error (fun n => if String.eqb n "HOME" then Some "/root" else None)
           "${HOME}/${OUT_DIR}/api.ts").
  reflexivity.
Defined.

(** ** json-schema.ts: [schema_to_typescript] *)

Lemma mapM_all_ok : forall A B (f : A -> result B) l,
  (forall x, In x l -> exists y, f x = Ok y) -> exists ys, mapM f l = Ok ys.
Proof.
  intros A B f l; induction l as [|x l IH]; intros H; [exists []; reflexivity|].
  destruct (H x (or_introl eq_refl)) as [y Hy].
  destruct IH as [ys Hys]; [intros z Hz; apply H; right; exact Hz|].
  exists (y :: ys); cbn; rewrite Hy, bind_ok, Hys; reflexivity.
Qed.

Lemma schema_to_typescript_inner_plain : forall ns fmts doc d s,
  ts_plain fmts d s = true -> exists ty, schema_to_typescript_inner ns fmts doc d s = Ok ty.
Proof.
  intros ns fmts doc d; induction d as [|d IH]; intros s H; [discriminate|].
  assert (Hall : forall ps, forallb (ts_plain fmts d) ps = true ->
            exists fr, mapM (schema_to_typescript_inner ns fmts doc d) ps = Ok fr).
  { intros ps Hps; apply mapM_all_ok; intros x Hx.
    apply IH; rewrite forallb_forall in Hps; exact (Hps x Hx). }
  destruct s as [|b|z|str|arr|l]; cbn [ts_plain] in H.
  - discriminate.
  - eexists; reflexivity.
  - eexists; reflexivity.
  - cbn [js_keys_length] in H; destruct (String.length str) eqn:E; [|discriminate].
    cbn [schema_to_typescript_inner js_keys_length]; rewrite E; eexists; reflexivity.
  - cbn [js_keys_length] in H; destruct (length arr) eqn:E; [|discriminate].
    cbn [schema_to_typescript_inner js_keys_length]; rewrite E; eexists; reflexivity.
  - cbn [schema_to_typescript_inner js_keys_length]; rewrite bind_ok.
    destruct (Nat.eqb (length l) 0); [eexists; reflexivity|].
    rewrite js_in_obj, bind_ok.
    destruct (assoc "$ref" l); [discriminate|].
    rewrite js_in_obj, bind_ok; unfold array_field; rewrite get_obj.
    destruct (assoc "allOf" l) as [[| | | |ps|]|]; try discriminate.
    { rewrite bind_ok; destruct (Hall ps H) as [fr Hfr]; rewrite Hfr, bind_ok.
      eexists; reflexivity. }
    rewrite js_in_obj, bind_ok; rewrite get_obj.
    destruct (assoc "oneOf" l) as [[| | | |ps|]|]; try discriminate.
    { rewrite bind_ok; destruct (Hall ps H) as [fr Hfr]; rewrite Hfr, bind_ok.
      eexists; reflexivity. }
    rewrite js_in_obj, bind_ok; rewrite get_obj.
    destruct (assoc "anyOf" l) as [[| | | |ps|]|]; try discriminate.
    { rewrite bind_ok; destruct (Hall ps H) as [fr Hfr]; rewrite Hfr, bind_ok.
      eexists; reflexivity. }
    rewrite js_in_obj, bind_ok.
    destruct (assoc "type" l); [|discriminate].
    destruct (type_is "null" (JObj l)); [eexists; reflexivity|].
    destruct (type_is "boolean" (JObj l)); [eexists; reflexivity|].
    cbn [orb] in H.
    destruct (type_is "integer" (JObj l) || type_is "number" (JObj l));
      [eexists; reflexivity|].
    destruct (type_is "string" (JObj l)).
    { rewrite js_in_obj, bind_ok.
      destruct (assoc "enum" l) as [[| | | |vs|]|] eqn:Ee; try discriminate.
      { unfold array_field; rewrite get_obj, Ee, bind_ok; eexists; reflexivity. }
      rewrite js_in_obj, bind_ok.
      destruct (assoc "const" l); [eexists; reflexivity|].
      rewrite get_obj; destruct (assoc "format" l) as [f|]; [|eexists; reflexivity].
      destruct (lookup_format fmts f) as [[]|]; [eexists; reflexivity..|discriminate]. }
    destruct (type_is "array" (JObj l)).
    { rewrite js_in_obj, bind_ok, get_obj.
      destruct (assoc "items" l) as [it|]; [|eexists; reflexivity].
      destruct (IH it H) as [ty Hty]; rewrite Hty, bind_ok; eexists; reflexivity. }
    destruct (type_is "object" (JObj l)); [|discriminate].
    apply andb_prop in H as [H Hadd]; apply andb_prop in H as [Hp Hr].
    rewrite !get_obj.
    set (required := match assoc "required" l with
                     | Some JNull | None => JArr [] | Some r => r end).
    assert (Hinc : forall name, exists b, js_includes required name = Ok b).
    { intros name; unfold required.
      destruct (assoc "required" l) as [[| | | | |]|]; try discriminate;
        eexists; reflexivity. }
    assert (Hents : exists fields, mapM (fun '(name, declaration) =>
          ty <- schema_to_typescript_inner ns fmts doc d declaration ;;
          req <- js_includes required name ;;
          Ok {| of_name := name; of_type := ty; of_optional := Some (negb req);
                of_raw := false |})
        (match match assoc "properties" l with
               | Some JNull | None => JObj [] | Some p => p end with
         | JObj ps => ps | _ => [] end) = Ok fields
        /\ js_entries (match assoc "properties" l with
               | Some JNull | None => JObj [] | Some p => p end)
           = Ok (match match assoc "properties" l with
               | Some JNull | None => JObj [] | Some p => p end with
         | JObj ps => ps | _ => [] end)).
    { destruct (assoc "properties" l) as [[| | | | |ps]|]; try discriminate;
        [eexists; split; reflexivity| |eexists; split; reflexivity].
      match goal with |- exists fields, mapM ?f _ = Ok fields /\ _ =>
        assert (Hm : exists fields, mapM f ps = Ok fields) end.
      { apply mapM_all_ok; intros [name decl] Hin.
        rewrite forallb_forall in Hp; destruct (IH decl (Hp _ Hin)) as [ty Hty].
        destruct (Hinc name) as [b Hb].
        rewrite Hty, bind_ok, Hb, bind_ok; eexists; reflexivity. }
      destruct Hm as [fields Hf]; exists fields; split; [exact Hf|reflexivity]. }
    destruct Hents as [fields [Hf He]].
    rewrite He, bind_ok, Hf, bind_ok, js_in_obj, bind_ok.
    destruct (assoc "additionalProperties" l) as [[|[]| | | |]|]; try discriminate;
      eexists; reflexivity.
Qed.

(** [schema_to_typescript] returns a type, and throws nothing, on every
    schema of the [ts_plain] form with fuel at least its nesting depth: the
    only errors it raises come from references, malformed fields, unknown
    types and unregistered string formats. *)
Theorem schema_to_typescript_plain_ok : forall ns fmts doc d s,
  ts_plain fmts d s = true -> exists ty, schema_to_typescript ns fmts doc d s = Ok ty.
Proof.
  intros ns fmts doc d s H; unfold schema_to_typescript.
  destruct s as [|[]| | | |]; try (eexists; reflexivity);
    apply schema_to_typescript_inner_plain; exact H.
Qed.

Lemma schema_to_typescript_plain_ok_witness :
  exists ty, schema_to_typescript "types." DEFAULT_STRING_FORMATS JNull 3
    (JObj [("type", JStr "object");
           ("properties", JObj [("id", JObj [("type", JStr "string"); ("format", JStr "uuid")]);
                                ("tags", JObj [("type", JStr "array");
                                               ("items", JObj [("type", JStr "string")])])]);
           ("required", JArr [JStr "id"])]) = Ok ty.
Proof. apply schema_to_typescript_plain_ok; reflexivity. Defined.
